(** * Time-series forecasting notebook: baselines and the recurrent unroll

    A shallow embedding of the code cells of
    [RNN/Time-series Forecasting.ipynb]:

    - the walk-forward baselines (naive loop, [exponential_smoothing]) over
      numpy [float64] arrays, with Python's index rules written out;
    - the class [RNN] of Exercise 1 ([__init__], [forward]) over a small model
      of the torch operations it calls ([zeros], [split], [RNNCell],
      [Linear], [cat]) with their shape checks.

    Python exceptions are values of an error monad; arrays are lists;
    arithmetic is a type class whose instance [binary64] is IEEE double
    precision, the element type of every array in the notebook. *)

From Stdlib Require Import ZArith Floats.
From stdpp Require Import base tactics option list.

Set Default Proof Using "Type*".

(** ** Exceptions and the error monad *)

(** The torch check that failed when a [RuntimeError] is raised. *)
Inductive torch_check :=
  | InputSizeCheck     (* input has inconsistent input_size *)
  | BatchSizeCheck     (* input batch size doesn't match hidden batch size *)
  | HiddenSizeCheck    (* hidden has inconsistent hidden_size *)
  | MatmulShapeCheck   (* mat1 and mat2 shapes cannot be multiplied *)
  | CatSizesCheck.     (* sizes of tensors must match except in dimension 1 *)

Inductive exn :=
  | IndexError
  | ValueError
  | RuntimeError (c : torch_check).

Inductive result (A : Type) :=
  | Ok (a : A)
  | Raise (e : exn).
Arguments Ok {A} a.
Arguments Raise {A} e.

#[export] Instance result_ret : MRet result := fun A a => Ok a.
#[export] Instance result_bind : MBind result := fun A B k r =>
  match r with
  | Ok a => k a
  | Raise e => Raise e
  end.

(** [for x in xs: s = body(x, s)]; an exception in the body leaves the loop. *)
Fixpoint for_in {A St : Type} (xs : list A) (body : A -> St -> result St)
    (s : St) : result St :=
  match xs with
  | [] => Ok s
  | x :: xs' => s' ← body x s; for_in xs' body s'
  end.

(** ** Arithmetic *)

Class Arith (F : Type) := {
  fzero : F;
  fone : F;
  fadd : F -> F -> F;
  fsub : F -> F -> F;
  fmul : F -> F -> F;
  fdiv : F -> F -> F;
  fsqrt : F -> F;
  of_nat : nat -> F;
  isfinite : F -> bool     (* np.isfinite: neither an infinity nor NaN *)
}.

(** IEEE 754 double precision, numpy's [float64] and torch's [double]. *)
#[export] Instance binary64 : Arith float := {
  fzero := 0%float;
  fone := 1%float;
  fadd := PrimFloat.add;
  fsub := PrimFloat.sub;
  fmul := PrimFloat.mul;
  fdiv := PrimFloat.div;
  fsqrt := PrimFloat.sqrt;
  of_nat := fun n => PrimFloat.of_uint63 (Uint63.of_Z (Z.of_nat n));
  isfinite := PrimFloat.is_finite
}.

(** A value that is neither an infinity nor NaN. *)
Definition SFfinite (s : spec_float) : bool :=
  match s with
  | S754_zero _ | S754_finite _ _ _ => true
  | S754_infinity _ | S754_nan => false
  end.

(** ** numpy arrays (one dimension) *)

Section Baselines.
Context {F : Type} {arith : Arith F}.

Definition np_zeros (n : nat) : list F := replicate n fzero.
Definition np_append (a b : list F) : list F := a ++ b.

(** Python's index rule for a sequence of length [n]: [0 <= i < n] is
    itself, [-n <= i < 0] counts from the end, anything else raises. *)
Definition py_index (n : nat) (i : Z) : result nat :=
  if decide (0 ≤ i < Z.of_nat n)%Z then Ok (Z.to_nat i)
  else if decide (- Z.of_nat n ≤ i < 0)%Z then Ok (Z.to_nat (Z.of_nat n + i))
  else Raise IndexError.

Definition getitem (a : list F) (i : Z) : result F :=
  k ← py_index (length a) i;
  match a !! k with
  | Some x => Ok x
  | None => Raise IndexError
  end.

Definition setitem (a : list F) (i : Z) (v : F) : result (list F) :=
  k ← py_index (length a) i;
  Ok (<[k:=v]> a).

(** *** The naive walk-forward cell

<<
    history = np.append(train_signal, np.zeros(len(test_signal)))
    predictions = np.zeros(len(test_signal))
    for i in range(len(test_signal)):
        t = len(train_signal) + i
        predictions[i] = history[t-1]
        history[t] = test_signal[i]
>>
    The loop state is the pair [(history, predictions)]. *)
Definition naive_body (train_signal test_signal : list F) (i : nat)
    (st : list F * list F) : result (list F * list F) :=
  let '(history, predictions) := st in
  let t := (Z.of_nat (length train_signal) + Z.of_nat i)%Z in
  h ← getitem history (t - 1);
  predictions ← setitem predictions (Z.of_nat i) h;
  x ← getitem test_signal (Z.of_nat i);
  history ← setitem history t x;
  Ok (history, predictions).

Definition walk_forward_naive (train_signal test_signal : list F)
  : result (list F * list F) :=
  let history := np_append train_signal (np_zeros (length test_signal)) in
  let predictions := np_zeros (length test_signal) in
  for_in (seq 0 (length test_signal)) (naive_body train_signal test_signal)
         (history, predictions).

Definition naive_predictions (train_signal test_signal : list F)
  : result (list F) :=
  st ← walk_forward_naive train_signal test_signal; Ok (snd st).

(** *** [exponential_smoothing(alpha)]

    [train_signal] and [test_signal] are globals of the notebook; they are
    arguments here. *)
Definition smoothing_body (alpha : F) (train_signal test_signal : list F)
    (i : nat) (st : list F * list F) : result (list F * list F) :=
  let '(history, predictions) := st in
  let t := (Z.of_nat (length train_signal) + Z.of_nat i)%Z in
  predictions ←
    (if decide (i = 0) then
       h ← getitem history (t - 1);
       setitem predictions (Z.of_nat i) h
     else
       h ← getitem history (t - 1);
       p ← getitem predictions (Z.of_nat i - 1);
       setitem predictions (Z.of_nat i)
               (fadd (fmul alpha h) (fmul (fsub fone alpha) p)));
  x ← getitem test_signal (Z.of_nat i);
  history ← setitem history t x;
  Ok (history, predictions).

Definition exponential_smoothing (alpha : F) (train_signal test_signal : list F)
  : result (list F) :=
  let history := np_append train_signal (np_zeros (length test_signal)) in
  let predictions := np_zeros (length test_signal) in
  st ← for_in (seq 0 (length test_signal))
              (smoothing_body alpha train_signal test_signal)
              (history, predictions);
  Ok (snd st).

(** *** [np.sum] and [np.mean]

    numpy adds the values of a [float64] array by pairwise summation:
<<
    if (n < 8) { res = 0.; for (i = 0; i < n; i++) res += a[i]; }
    else if (n <= 128) {
        r[0..7] = a[0..7];
        for (i = 8; i < n - (n % 8); i += 8) r[j] += a[i + j];   /* j = 0..7 */
        res = ((r[0] + r[1]) + (r[2] + r[3])) + ((r[4] + r[5]) + (r[6] + r[7]));
        for (; i < n; i++) res += a[i];
    }
    else { n2 = n / 2; n2 -= n2 % 8;
           res = pairwise_sum(a, n2) + pairwise_sum(a + n2, n - n2); }
>>
    and the reduction adds the result to its initial value, the zero. *)
Definition sum_lanes (r : list F) : F :=
  match r with
  | [r0; r1; r2; r3; r4; r5; r6; r7] =>
      fadd (fadd (fadd r0 r1) (fadd r2 r3)) (fadd (fadd r4 r5) (fadd r6 r7))
  | _ => fzero
  end.

(** [k] further blocks of 8 values added to the 8 partial sums [r]. *)
Fixpoint add_blocks (k : nat) (r a : list F) : list F :=
  match k with
  | 0 => r
  | S k' => add_blocks k' (zip_with fadd r (take 8 a)) (drop 8 a)
  end.

(** The middle case, [8 <= n <= 128]. *)
Definition block_sum (a : list F) : F :=
  let blocks := length a / 8 in
  let r := add_blocks (blocks - 1) (take 8 a) (drop 8 a) in
  foldl fadd (sum_lanes r) (drop (8 * blocks) a).

(** The recursion is on the length of the array, which [fuel] bounds: both
    halves of an array of more than 128 values are shorter than it. *)
Fixpoint pairwise_sum_rec (fuel : nat) (a : list F) : F :=
  let n := length a in
  if decide (n < 8) then foldl fadd fzero a
  else if decide (n ≤ 128) then block_sum a
  else match fuel with
       | 0 => fzero
       | S fuel' =>
           let n2 := n / 2 - (n / 2) mod 8 in
           fadd (pairwise_sum_rec fuel' (take n2 a))
                (pairwise_sum_rec fuel' (drop n2 a))
       end.

Definition pairwise_sum (a : list F) : F := pairwise_sum_rec (length a) a.

Definition np_sum (a : list F) : F := fadd fzero (pairwise_sum a).
Definition np_mean (a : list F) : F := fdiv (np_sum a) (of_nat (length a)).

(** *** Root-mean-squared error

    [np.sqrt(mean_squared_error(predictions, test_signal))]: sklearn
    refuses arrays of different lengths, empty arrays, and arrays that hold
    an infinity or NaN, each with a [ValueError]; then it averages
    [(y_true - y_pred) ** 2] over the samples
    ([output_errors = np.average(..., axis=0)]), and these averages over the
    outputs, of which there is one ([np.average(output_errors)]). *)
Definition mean_squared_error (y_true y_pred : list F) : result F :=
  if decide (length y_true = length y_pred ∧ length y_true ≠ 0) then
    if forallb isfinite y_true && forallb isfinite y_pred then
      let output_errors :=
        [np_mean (zip_with (fun a b => fmul (fsub a b) (fsub a b))
                           y_true y_pred)] in
      Ok (np_mean output_errors)
    else Raise ValueError
  else Raise ValueError.

Definition rmse (predictions test_signal : list F) : result F :=
  e ← mean_squared_error predictions test_signal; Ok (fsqrt e).

(** The observation a walk-forward step reads as [history[t-1]]: the last
    training value at step 0 (the zero of the padding when there is no
    training value), the test value revealed by the step before
    otherwise. *)
Definition previous_observation (train test : list F) (i : nat) : F :=
  match i with
  | 0 => default fzero (last train)
  | S j => default fzero (test !! j)
  end.

(** [history] after [k] steps of either loop. *)
Definition history_after (train test : list F) (k : nat) : list F :=
  train ++ take k test ++ replicate (length test - k) fzero.

End Baselines.

(** ** torch tensors (two dimensions) *)

(** The hyperbolic tangent of the element type; the cell's activation. It is
    not among the operations of [PrimFloat] and stays a parameter. *)
Class Activation (F : Type) := tanh : F -> F.

(** A tensor of shape [(size0, size1)], stored by rows: [size0] is the number
    of rows and [size1] is kept beside the data, as torch keeps the shape of a
    tensor that has no row. *)
Record Tensor (F : Type) := { size1 : nat; rows : list (list F) }.
Arguments size1 {F} t.
Arguments rows {F} t.

Definition size0 {F} (t : Tensor F) : nat := length (rows t).

Definition wf_tensor {F} (t : Tensor F) : Prop :=
  Forall (fun r => length r = size1 t) (rows t).

Module torch.
Section Ops.
Context {F : Type} {arith : Arith F}.

(** [torch.zeros(n, m, dtype=torch.double)] *)
Definition zeros (n m : nat) : Tensor F :=
  {| size1 := m; rows := replicate n (replicate m fzero) |}.

(** [t.narrow(1, start, len)] *)
Definition narrow (t : Tensor F) (start len : nat) : Tensor F :=
  {| size1 := len; rows := (fun r => take len (drop start r)) <$> rows t |}.

(** [t.split(1, dim=1)]: one chunk of width 1 per column. The number of
    chunks is never below one: on a tensor without columns the only chunk
    is the tensor itself, of width 0. *)
Definition split (t : Tensor F) : list (Tensor F) :=
  match size1 t with
  | 0 => [narrow t 0 0]
  | S _ => (fun j => narrow t j 1) <$> seq 0 (size1 t)
  end.

(** The width of every chunk of [split t]. *)
Definition chunk_width (t : Tensor F) : nat := min 1 (size1 t).

(** [torch.cat(ts, dim=1)]; an empty list is refused with a [ValueError]
    ("expected a non-empty list of Tensors"). *)
Definition cat (ts : list (Tensor F)) : result (Tensor F) :=
  match ts with
  | [] => Raise ValueError
  | t0 :: rest =>
      if decide (Forall (fun t => size0 t = size0 t0) rest) then
        Ok {| size1 := foldl (fun n t => n + size1 t) (size1 t0) rest;
              rows := foldl (fun acc t => zip_with app acc (rows t)) (rows t0) rest |}
      else Raise (RuntimeError CatSizesCheck)
  end.

(** [F.linear(x, W, b)] on one row: [x W^T + b]. *)
Definition dot (u v : list F) : F := foldl fadd fzero (zip_with fmul u v).
Definition affine (W : list (list F)) (b : list F) (x : list F) : list F :=
  zip_with fadd (dot x <$> W) b.
End Ops.
End torch.

(** [nn.RNNCell(input_size, hidden_size)] with the default [tanh]. *)
Module RNNCell.
Section Cell.
Context {F : Type} {arith : Arith F} {activation : Activation F}.

Record t := {
  input_size : nat;
  hidden_size : nat;
  weight_ih : list (list F);
  weight_hh : list (list F);
  bias_ih : list F;
  bias_hh : list F
}.

(** The shapes the constructor gives the parameters. *)
Definition wf (c : t) : Prop :=
  length (weight_ih c) = hidden_size c ∧
  length (weight_hh c) = hidden_size c ∧
  length (bias_ih c) = hidden_size c ∧
  length (bias_hh c) = hidden_size c.

(** [cell(input, hx)]: the three shape checks, then
    [tanh(input W_ih^T + b_ih + hx W_hh^T + b_hh)] row by row. *)
Definition forward (c : t) (input hx : Tensor F) : result (Tensor F) :=
  if decide (size1 input ≠ input_size c) then Raise (RuntimeError InputSizeCheck)
  else if decide (size0 input ≠ size0 hx) then Raise (RuntimeError BatchSizeCheck)
  else if decide (size1 hx ≠ hidden_size c) then Raise (RuntimeError HiddenSizeCheck)
  else Ok {| size1 := hidden_size c;
             rows := zip_with
                       (fun x h => tanh <$> zip_with fadd
                                     (torch.affine (weight_ih c) (bias_ih c) x)
                                     (torch.affine (weight_hh c) (bias_hh c) h))
                       (rows input) (rows hx) |}.
End Cell.
Arguments t F : clear implicits.
End RNNCell.

(** [nn.Linear(in_features, out_features)] *)
Module Linear.
Section Layer.
Context {F : Type} {arith : Arith F}.

Record t := {
  in_features : nat;
  out_features : nat;
  weight : list (list F);
  bias : list F
}.

Definition wf (l : t) : Prop :=
  length (weight l) = out_features l ∧ length (bias l) = out_features l.

Definition forward (l : t) (input : Tensor F) : result (Tensor F) :=
  if decide (size1 input ≠ in_features l) then Raise (RuntimeError MatmulShapeCheck)
  else Ok {| size1 := out_features l;
             rows := torch.affine (weight l) (bias l) <$> rows input |}.
End Layer.
Arguments t F : clear implicits.
End Linear.

(** ** The class [RNN] of Exercise 1 *)
Module RNN.
Section Model.
Context {F : Type} {arith : Arith F} {activation : Activation F}.

Record t := {
  hidden_size : nat;
  rnn1 : RNNCell.t F;
  linear : Linear.t F
}.

(** [RNN(input_size, hidden_size, output_size)]; the initial values of the
    parameters, drawn at random by torch, are arguments. *)
Definition __init__ (input_size hidden_size output_size : nat)
    (w_ih w_hh : list (list F)) (b_ih b_hh : list F)
    (w : list (list F)) (b : list F) : t :=
  {| hidden_size := hidden_size;
     rnn1 := {| RNNCell.input_size := input_size;
                RNNCell.hidden_size := hidden_size;
                RNNCell.weight_ih := w_ih; RNNCell.weight_hh := w_hh;
                RNNCell.bias_ih := b_ih; RNNCell.bias_hh := b_hh |};
     linear := {| Linear.in_features := hidden_size;
                  Linear.out_features := output_size;
                  Linear.weight := w; Linear.bias := b |} |}.

(** What [__init__] establishes between the three fields. *)
Definition wf (self : t) : Prop :=
  RNNCell.hidden_size (rnn1 self) = hidden_size self ∧
  Linear.in_features (linear self) = hidden_size self ∧
  RNNCell.wf (rnn1 self) ∧ Linear.wf (linear self).

(** The body of the loop of [forward] on the state [(hidden, outputs)]:
<<
        hidden = self.rnn1(input_t, hidden)
        output = self.linear(hidden)
        outputs += [output]
>> *)
Definition forward_body (self : t) (input_t : Tensor F)
    (st : Tensor F * list (Tensor F)) : result (Tensor F * list (Tensor F)) :=
  let '(hidden, outputs) := st in
  hidden ← RNNCell.forward (rnn1 self) input_t hidden;
  output ← Linear.forward (linear self) hidden;
  Ok (hidden, outputs ++ [output]).

(** [forward(self, input, future=0)] as the notebook gives it:
<<
    hidden = torch.zeros(input.size(0), self.hidden_size, dtype=torch.double)
    outputs = []
    for input_t in input.split(1, dim=1):
        ...
    outputs = torch.cat(outputs, dim=1)
    return outputs, hidden
>> *)
Definition forward (self : t) (input : Tensor F) (future : Z)
  : result (Tensor F * Tensor F) :=
  let hidden := torch.zeros (size0 input) (hidden_size self) in
  let outputs := [] in
  st ← for_in (torch.split input) (forward_body self) (hidden, outputs);
  outputs ← torch.cat (snd st);
  Ok (outputs, fst st).
End Model.
Arguments t F : clear implicits.
End RNN.

(** *** A small instance

    [RNN(1, 1, 1)] with fixed parameter values and one signal of two
    samples, the shape of the notebook's call [rnn(input, future=f)]. *)
Definition demo_rnn : RNN.t float :=
  RNN.__init__ 1 1 1 [[0.5%float]] [[0.25%float]] [0%float] [0%float]
               [[2%float]] [1%float].

Definition demo_input : Tensor float :=
  {| size1 := 2; rows := [[1%float; 2%float]] |}.

(** A stand-in activation with which the definitions run on doubles; the
    properties below hold for every activation. *)
Definition identity_activation : Activation float := fun x => x.

(** [RNN(0, 1, 1)], a model whose cell takes inputs without features, and
    one signal without any sample, a tensor of shape [(1, 0)]. *)
Definition featureless_rnn : RNN.t float :=
  RNN.__init__ 0 1 1 [[]] [[0.25%float]] [0%float] [0%float]
               [[2%float]] [1%float].

Definition empty_input : Tensor float := {| size1 := 0; rows := [[]] |}.

(** ** The other cells of the notebook *)

(** Python's slice [a[start:stop]] (step 1): a negative bound counts from
    the end, every bound is clamped to [0 .. len(a)], a missing bound is the
    corresponding end, and the slice is empty when [stop <= start]. *)
Definition py_slice_index (n : nat) (i : Z) : nat :=
  if decide (i < 0)%Z then Z.to_nat (Z.of_nat n + i)
  else Z.to_nat (Z.min i (Z.of_nat n)).

Definition py_slice {A : Type} (a : list A) (start stop : option Z) : list A :=
  let lo := from_option (py_slice_index (length a)) 0 start in
  let hi := from_option (py_slice_index (length a)) (length a) stop in
  take (hi - lo) (drop lo a).

(** [t.narrow(0, b, 1)], the row [b] of a batch as a batch of one. *)
Definition narrow0 {F} (t : Tensor F) (b : nat) : Tensor F :=
  {| size1 := size1 t; rows := take 1 (drop b (rows t)) |}.

Module cells.
Section Cells.
Context {F : Type} {arith : Arith F}.

(** [2 * (signal - physical_min) / (physical_max - physical_min) - 1.0],
    elementwise on the samples of one channel. *)
Definition normalise (physical_min physical_max : F) (signal : list F)
  : list F :=
  (fun x => fsub (fdiv (fmul (of_nat 2) (fsub x physical_min))
                       (fsub physical_max physical_min))
                 fone) <$> signal.

(** The split of the array [data] (one row per channel):
<<
    input = torch.from_numpy(data[:3, :-1])
    target = torch.from_numpy(data[:3, 1:])
    test_input = torch.from_numpy(data[3:, :-1])
    test_target = torch.from_numpy(data[3:, 1:])
>> *)
Definition input (data : list (list F)) : list (list F) :=
  (fun r => py_slice r None (Some (-1)%Z)) <$> py_slice data None (Some 3%Z).
Definition target (data : list (list F)) : list (list F) :=
  (fun r => py_slice r (Some 1%Z) None) <$> py_slice data None (Some 3%Z).
Definition test_input (data : list (list F)) : list (list F) :=
  (fun r => py_slice r None (Some (-1)%Z)) <$> py_slice data (Some 3%Z) None.
Definition test_target (data : list (list F)) : list (list F) :=
  (fun r => py_slice r (Some 1%Z) None) <$> py_slice data (Some 3%Z) None.

(** [train_signal = input[0]] and [test_signal = target[0]] *)
Definition train_signal (data : list (list F)) : result (list F) :=
  match input data !! 0 with
  | Some r => Ok r
  | None => Raise IndexError
  end.
Definition test_signal (data : list (list F)) : result (list F) :=
  match target data !! 0 with
  | Some r => Ok r
  | None => Raise IndexError
  end.

(** The naive walk-forward cell on these two signals. *)
Definition naive_baseline (data : list (list F)) : result (list F) :=
  train ← train_signal data;
  test ← test_signal data;
  naive_predictions train test.

(** The windowed walk-forward cell:
<<
    history = np.append(train_signal, np.zeros(len(test_signal)))
    predictions = np.zeros(len(test_signal))
    for i in range(len(test_signal)):
        t = len(train_signal) + i
        predictions[i] = np.mean(history[t-5:t])
        history[t] = test_signal[i]
>>
    [np.mean] of an empty slice is [0/0] and does not raise. *)
Definition moving_average_body (train_signal test_signal : list F) (i : nat)
    (st : list F * list F) : result (list F * list F) :=
  let '(history, predictions) := st in
  let t := (Z.of_nat (length train_signal) + Z.of_nat i)%Z in
  predictions ← setitem predictions (Z.of_nat i)
                        (np_mean (py_slice history (Some (t - 5)%Z) (Some t)));
  x ← getitem test_signal (Z.of_nat i);
  history ← setitem history t x;
  Ok (history, predictions).

Definition walk_forward_moving_average (train_signal test_signal : list F)
  : result (list F * list F) :=
  let history := np_append train_signal (np_zeros (length test_signal)) in
  let predictions := np_zeros (length test_signal) in
  for_in (seq 0 (length test_signal))
         (moving_average_body train_signal test_signal)
         (history, predictions).
End Cells.
End cells.

(** * Properties *)

(** ** The error monad and loops *)

(** A loop over [range(k, k+n)] whose body keeps an invariant and never
    raises returns a state that satisfies the invariant at [k+n]. *)
Lemma for_in_range_invariant {St} (P : nat -> St -> Prop)
    (body : nat -> St -> result St) n k s :
  P k s ->
  (∀ i s, k ≤ i < k + n -> P i s -> ∃ s', body i s = Ok s' ∧ P (S i) s') ->
  ∃ s', for_in (seq k n) body s = Ok s' ∧ P (k + n) s'.
Proof.
  revert k s. induction n as [|n IH]; intros k s HP Hbody; simpl.
  - exists s. by rewrite Nat.add_0_r.
  - destruct (Hbody k s) as (s1 & -> & HP1); [lia | done |]. simpl.
    destruct (IH (S k) s1) as (s2 & Hs2 & HP2); [done | |].
    + intros i s' Hi. apply Hbody. lia.
    + exists s2. split; [done |]. by replace (k + S n) with (S k + n) by lia.
Qed.

Section BaselineFacts.
Context {F : Type} {arith : Arith F}.
Implicit Types (train test history predictions : list F).

(** Cutting an array of more than 128 values gives two shorter arrays. *)
Lemma pairwise_halves (n : nat) :
  128 < n -> 0 < n / 2 - (n / 2) mod 8 < n.
Proof.
  intros Hn.
  pose proof (Nat.mod_upper_bound (n / 2) 8).
  pose proof (Nat.div_mod_eq n 2). pose proof (Nat.mod_upper_bound n 2).
  lia.
Qed.

(** The recursion never runs out of [fuel]: any bound on the length gives
    the same sum. *)
Lemma pairwise_sum_rec_fuel (fuel1 fuel2 : nat) (a : list F) :
  length a ≤ fuel1 -> length a ≤ fuel2 ->
  pairwise_sum_rec fuel1 a = pairwise_sum_rec fuel2 a.
Proof.
  revert fuel2 a. induction fuel1 as [|fuel1 IH]; intros fuel2 a H1 H2.
  - destruct fuel2; cbn [pairwise_sum_rec]; rewrite !decide_True by lia; done.
  - destruct fuel2 as [|fuel2].
    { cbn [pairwise_sum_rec]; rewrite !decide_True by lia; done. }
    cbn [pairwise_sum_rec]. case_decide; [done|]. case_decide; [done|].
    pose proof (pairwise_halves (length a)).
    f_equal; apply IH; rewrite ?length_take, ?length_drop; lia.
Qed.

(** The three cases of the summation, without fuel. *)
Lemma pairwise_sum_eq (a : list F) :
  pairwise_sum a
  = if decide (length a < 8) then foldl fadd fzero a
    else if decide (length a ≤ 128) then block_sum a
    else let n2 := length a / 2 - (length a / 2) mod 8 in
         fadd (pairwise_sum (take n2 a)) (pairwise_sum (drop n2 a)).
Proof.
  unfold pairwise_sum at 1. destruct (length a) as [|n] eqn:Hn.
  { cbn [pairwise_sum_rec]. rewrite Hn. by rewrite decide_True by lia. }
  cbn [pairwise_sum_rec]. rewrite Hn. case_decide; [done|]. case_decide; [done|].
  pose proof (pairwise_halves (S n)).
  cbv zeta. unfold pairwise_sum.
  f_equal; apply pairwise_sum_rec_fuel;
    rewrite ?length_take, ?length_drop; lia.
Qed.

Lemma py_index_nat n i : i < n -> py_index n (Z.of_nat i) = Ok i.
Proof.
  intros Hi. unfold py_index. rewrite decide_True by lia.
  by rewrite Nat2Z.id.
Qed.

Lemma py_index_last n : 0 < n -> py_index n (-1) = Ok (pred n).
Proof.
  intros Hn. unfold py_index. rewrite decide_False by lia.
  rewrite decide_True by lia. f_equal. lia.
Qed.

Lemma getitem_nat (a : list F) i x :
  a !! i = Some x -> getitem a (Z.of_nat i) = Ok x.
Proof.
  intros Hx. unfold getitem.
  rewrite py_index_nat by (by eapply lookup_lt_Some). simpl. by rewrite Hx.
Qed.

Lemma setitem_nat (a : list F) i v :
  i < length a -> setitem a (Z.of_nat i) v = Ok (<[i:=v]> a).
Proof. intros Hi. unfold setitem. by rewrite py_index_nat. Qed.

Lemma history_after_0 train test :
  np_append train (np_zeros (length test)) = history_after train test 0.
Proof. unfold history_after. by rewrite take_0, Nat.sub_0_r. Qed.

Lemma length_history_after train test k :
  k ≤ length test ->
  length (history_after train test k) = length train + length test.
Proof.
  intros Hk. unfold history_after.
  rewrite !length_app, length_take, length_replicate. lia.
Qed.

Lemma history_read train test k :
  k < length test ->
  getitem (history_after train test k)
          (Z.of_nat (length train) + Z.of_nat k - 1)
  = Ok (previous_observation train test k).
Proof.
  intros Hk. destruct k as [|j]; simpl.
  - destruct (decide (length train = 0)) as [Hm|Hm].
    + destruct train; [|done]. simpl.
      unfold getitem. rewrite py_index_last.
      2:{ rewrite length_history_after by lia. simpl. lia. }
      simpl. rewrite length_history_after by lia. simpl.
      unfold history_after. simpl. rewrite Nat.sub_0_r.
      rewrite lookup_replicate_2 by lia. done.
    + replace (Z.of_nat (length train) + Z.of_nat 0 - 1)%Z
        with (Z.of_nat (pred (length train))) by lia.
      destruct (lookup_lt_is_Some_2 train (pred (length train))) as [x Hx];
        [lia|].
      rewrite last_lookup, Hx. simpl. apply getitem_nat.
      unfold history_after. rewrite lookup_app_l by lia. done.
  - replace (Z.of_nat (length train) + Z.of_nat (S j) - 1)%Z
      with (Z.of_nat (length train + j)) by lia.
    destruct (lookup_lt_is_Some_2 test j) as [x Hx]; [lia|].
    rewrite Hx. simpl. apply getitem_nat.
    unfold history_after.
    rewrite lookup_app_r by lia.
    replace (length train + j - length train) with j by lia.
    rewrite lookup_app_l by (rewrite length_take; lia).
    rewrite lookup_take_lt by lia. done.
Qed.

Lemma history_write train test k x :
  test !! k = Some x ->
  setitem (history_after train test k)
          (Z.of_nat (length train) + Z.of_nat k) x
  = Ok (history_after train test (S k)).
Proof.
  intros Hx. pose proof (lookup_lt_Some _ _ _ Hx) as Hk.
  replace (Z.of_nat (length train) + Z.of_nat k)%Z
    with (Z.of_nat (length train + k)) by lia.
  rewrite setitem_nat by (rewrite length_history_after; lia).
  f_equal. unfold history_after.
  rewrite insert_app_r.
  replace k with (length (take k test) + 0) at 1
    by (rewrite length_take; lia).
  rewrite insert_app_r.
  replace (length test - k) with (S (length test - S k)) by lia.
  simpl. rewrite (take_S_r _ _ _ Hx), <- app_assoc. done.
Qed.

(** The naive loop never raises; it leaves [predictions[i]] equal to the
    observation before step [i]. *)
Lemma walk_forward_naive_spec train test :
  ∃ predictions,
    walk_forward_naive train test
    = Ok (history_after train test (length test), predictions) ∧
    length predictions = length test ∧
    ∀ i, i < length test ->
         predictions !! i = Some (previous_observation train test i).
Proof.
  unfold walk_forward_naive. rewrite history_after_0.
  set (P := fun (k : nat) (st : list F * list F) =>
    st.1 = history_after train test k ∧
    length st.2 = length test ∧
    ∀ i, i < k -> st.2 !! i = Some (previous_observation train test i)).
  destruct (for_in_range_invariant P (naive_body train test)
              (length test) 0 (history_after train test 0,
                               np_zeros (length test)))
    as ([history predictions] & Hrun & Hh & Hlen & Hp).
  - split_and!; simpl; [done | apply length_replicate | lia].
  - intros k [history predictions] Hk (Hh & Hlen & Hp). simpl in *. subst.
    destruct (lookup_lt_is_Some_2 test k) as [x Hx]; [lia|].
    rewrite history_read by lia. simpl.
    rewrite setitem_nat by lia. simpl.
    rewrite (getitem_nat _ _ _ Hx). simpl.
    rewrite (history_write _ _ _ _ Hx). simpl.
    eexists. split; [done|]. split_and!; simpl.
    + done.
    + by rewrite length_insert.
    + intros i Hi. destruct (decide (i = k)) as [->|Hne].
      * by rewrite list_lookup_insert_eq by lia.
      * rewrite list_lookup_insert_ne by done. apply Hp. lia.
  - simpl in *. subst. exists predictions. split_and!; [done..|].
    intros i Hi. apply Hp. lia.
Qed.

(** [exponential_smoothing] never raises; its first prediction is the
    observation before step 0 and each later one blends the observation
    before its step with the prediction before it. *)
Lemma exponential_smoothing_spec alpha train test :
  ∃ predictions,
    exponential_smoothing alpha train test = Ok predictions ∧
    length predictions = length test ∧
    (0 < length test ->
     predictions !! 0 = Some (previous_observation train test 0)) ∧
    ∀ i p, S i < length test -> predictions !! i = Some p ->
           predictions !! S i
           = Some (fadd (fmul alpha (previous_observation train test (S i)))
                        (fmul (fsub fone alpha) p)).
Proof.
  unfold exponential_smoothing. rewrite history_after_0.
  set (P := fun (k : nat) (st : list F * list F) =>
    st.1 = history_after train test k ∧
    length st.2 = length test ∧
    (0 < k -> st.2 !! 0 = Some (previous_observation train test 0)) ∧
    ∀ i p, S i < k -> st.2 !! i = Some p ->
           st.2 !! S i
           = Some (fadd (fmul alpha (previous_observation train test (S i)))
                        (fmul (fsub fone alpha) p))).
  destruct (for_in_range_invariant P (smoothing_body alpha train test)
              (length test) 0 (history_after train test 0,
                               np_zeros (length test)))
    as ([history predictions] & Hrun & Hh & Hlen & H0 & Hp).
  - split_and!; simpl; [done | apply length_replicate | lia | lia].
  - intros k [history predictions] Hk (Hh & Hlen & H0 & Hp).
    simpl in *. subst.
    destruct (lookup_lt_is_Some_2 test k) as [x Hx]; [lia|].
    rewrite history_read by lia.
    destruct (decide (k = 0)) as [->|Hk0]; simpl.
    + rewrite (setitem_nat _ 0) by lia. simpl.
      rewrite (getitem_nat _ 0 _ Hx). simpl.
      rewrite (history_write _ _ 0 _ Hx). simpl.
      eexists. split; [done|]. split_and!; simpl.
      * done.
      * by rewrite length_insert.
      * intros _. by rewrite list_lookup_insert_eq by lia.
      * intros; lia.
    + destruct (lookup_lt_is_Some_2 predictions (pred k)) as [p Hpk]; [lia|].
      replace (Z.of_nat k - 1)%Z with (Z.of_nat (pred k)) by lia.
      rewrite (getitem_nat _ _ _ Hpk). simpl.
      rewrite setitem_nat by lia. simpl.
      rewrite (getitem_nat _ _ _ Hx). simpl.
      rewrite (history_write _ _ _ _ Hx). simpl.
      eexists. split; [done|]. split_and!; simpl.
      * done.
      * by rewrite length_insert.
      * intros _. rewrite list_lookup_insert_ne by done. apply H0. lia.
      * intros i q Hi Hq. destruct (decide (S i = k)) as [<-|Hne].
        -- rewrite list_lookup_insert_ne in Hq by lia.
           simpl in Hpk. rewrite Hpk in Hq. injection Hq as <-.
           by rewrite list_lookup_insert_eq by lia.
        -- rewrite list_lookup_insert_ne in Hq by lia.
           rewrite list_lookup_insert_ne by lia. apply Hp; [lia | done].
  - rewrite Hrun. simpl in *. subst. exists predictions.
    split_and!; [done | done | |].
    + intros Hn. apply H0. lia.
    + intros i p Hi. apply Hp. lia.
Qed.
End BaselineFacts.

(** ** IEEE double precision *)

Section Binary64Facts.
Local Open Scope float_scope.

Lemma is_finite_spec x : is_finite x = SFfinite (Prim2SF x).
Proof.
  unfold is_finite, is_nan, is_infinity.
  rewrite !FloatAxioms.eqb_spec, abs_spec.
  change (Prim2SF infinity) with (S754_infinity false).
  destruct (Prim2SF x) as [[]|[]| |[] m e]; try reflexivity.
  all: unfold SFeqb, SFabs, SFcompare; rewrite Z.compare_refl;
    rewrite (Pos.compare_cont_refl m Eq); reflexivity.
Qed.

Lemma SFeqb_refl s : SFfinite s = true -> SFeqb s s = true.
Proof.
  destruct s as [[]|[]| |[] m e]; try done; intros _.
  all: unfold SFeqb, SFcompare; rewrite Z.compare_refl;
    rewrite (Pos.compare_cont_refl m Eq); reflexivity.
Qed.

Lemma Zpos_succ p : Z.pos (PosDef.Pos.succ p) = (Z.pos p + 1)%Z.
Proof. change (PosDef.Pos.succ p) with (Pos.succ p). lia. Qed.

(** Rounding the product of a canonical mantissa by [2^52], with the
    exponent lowered by 52, gives the mantissa back. *)
Lemma round_shifted s m e :
  bounded prec emax m e = true ->
  binary_round_aux prec emax s
    (Zpos (4503599627370496 * m)) (-52 + e) loc_Exact
  = S754_finite s m e.
Proof.
  intros Hb. apply andb_prop in Hb as [Hc He].
  unfold canonical_mantissa in Hc. apply Z.eqb_eq in Hc.
  apply Z.leb_le in He.
  assert (Zdigits2 (Z.pos (4503599627370496 * m))
          = (Z.pos (digits2_pos m) + 52)%Z) as Hd.
  { cbv [Pos.mul]. cbn [Zdigits2 digits2_pos]. rewrite !Zpos_succ. lia. }
  unfold binary_round_aux, shr_fexp. rewrite Hd.
  replace (Z.pos (digits2_pos m) + 52 + (-52 + e))%Z
    with (Z.pos (digits2_pos m) + e)%Z by lia.
  rewrite Hc. replace (e - (-52 + e))%Z with 52%Z by lia.
  cbv [Pos.mul shr shr_record_of_loc SpecFloat.iter_pos shr_1 orb].
  replace (-52 + e + 52)%Z with e by lia.
  cbn [shr_m loc_of_shr_record round_nearest_even shr_record_of_loc
       Zdigits2].
  rewrite Hc, Z.sub_diag. cbn [shr shr_m].
  apply Z.leb_le in He. by rewrite He.
Qed.

Lemma mul_1_l x : 1 * x = x.
Proof.
  apply Prim2SF_inj. rewrite mul_spec.
  change (Prim2SF 1) with (S754_finite false 4503599627370496 (-52)).
  pose proof (Prim2SF_valid x) as Hv.
  destruct (Prim2SF x) as [sx|sx| |sx m e]; try reflexivity.
  apply (round_shifted (xorb false sx)); exact Hv.
Qed.

(** Zero times a finite value is a zero (of either sign). *)
Lemma mul_0_finite p :
  is_finite p = true -> exists s, Prim2SF (0 * p) = S754_zero s.
Proof.
  rewrite is_finite_spec, mul_spec.
  change (Prim2SF 0) with (S754_zero false).
  destruct (Prim2SF p) as [sp|sp| |sp m e]; try done; intros _; by eexists.
Qed.

(** Adding a zero to a finite value gives a value equal to it ([==]),
    identical but for the sign of a zero. *)
Lemma add_zero_finite x z s :
  is_finite x = true -> Prim2SF z = S754_zero s ->
  (x + z =? x) = true ∧ is_finite (x + z) = true.
Proof.
  rewrite !is_finite_spec, FloatAxioms.eqb_spec, add_spec.
  intros Hx ->.
  destruct (Prim2SF x) as [sx|sx| |sx m e] eqn:E; try done.
  - by destruct sx, s.
  - split; [|done]. simpl. by apply SFeqb_refl.
Qed.

(** One step of the smoothing recurrence at [alpha = 1]. *)
Lemma blend_alpha_1 x p :
  is_finite x = true -> is_finite p = true ->
  (1 * x + (1 - 1) * p =? x) = true ∧
  is_finite (1 * x + (1 - 1) * p) = true.
Proof.
  intros Hx Hp. rewrite mul_1_l.
  change (1 - 1) with 0.
  destruct (mul_0_finite p Hp) as [s Hs].
  by apply (add_zero_finite x _ s).
Qed.
End Binary64Facts.

(** ** The baselines *)

Section BaselineProperties.
Context {F : Type} {arith : Arith F}.
Implicit Types (train test prediction : list F).

Lemma previous_observation_0 train test v :
  last train = Some v -> previous_observation train test 0 = v.
Proof. by intros Hv; simpl; rewrite Hv. Qed.

Lemma previous_observation_S train test i x :
  test !! i = Some x -> previous_observation train test (S i) = x.
Proof. by intros Hx; simpl; rewrite Hx. Qed.

(** C5: [exponential_smoothing(alpha)] returns one prediction per test
    value; [prediction[0]] is the last value of the training history, and
    for [i > 0], [prediction[i] = alpha * x + (1 - alpha) * prediction[i-1]]
    where [x = test[i-1]] is the observation revealed by the step before
    (the value the loop reads as [history[t-1]]).  This holds for every
    [alpha], in (0,1] or not. *)
Theorem exponential_smoothing_recurrence (alpha : F) train test :
  ∃ prediction,
    exponential_smoothing alpha train test = Ok prediction ∧
    length prediction = length test ∧
    (∀ v, last train = Some v -> 0 < length test ->
          prediction !! 0 = Some v) ∧
    (∀ i x p, 0 < i -> test !! (i - 1) = Some x ->
              prediction !! (i - 1) = Some p -> i < length test ->
              prediction !! i
              = Some (fadd (fmul alpha x) (fmul (fsub fone alpha) p))).
Proof.
  destruct (exponential_smoothing_spec alpha train test)
    as (prediction & Hrun & Hlen & H0 & Hrec).
  exists prediction. split_and!; [done | done | |].
  - intros v Hv Hn. rewrite (H0 Hn). f_equal.
    by apply previous_observation_0.
  - intros [|j] x p Hi Hx Hp Hlt; [lia|]. simpl in Hx, Hp.
    rewrite Nat.sub_0_r in Hx, Hp.
    rewrite (Hrec j p Hlt Hp). do 3 f_equal.
    by apply previous_observation_S.
Qed.

(** X1: The naive walk-forward cell never raises; it leaves in [history] the
    training values followed by the test values, and in [predictions] the
    previous true observation of every step: the last training value at
    step 0 and [test_signal[i-1]] at every step [i > 0]. *)
Theorem naive_predicts_previous_observation train test :
  ∃ predictions,
    walk_forward_naive train test = Ok (train ++ test, predictions) ∧
    length predictions = length test ∧
    (∀ v, last train = Some v -> 0 < length test ->
          predictions !! 0 = Some v) ∧
    (∀ i, 0 < i -> i < length test -> predictions !! i = test !! (i - 1)).
Proof.
  destruct (walk_forward_naive_spec train test)
    as (predictions & Hrun & Hlen & Hspec).
  exists predictions. split_and!; [ | done | |].
  - rewrite Hrun. unfold history_after.
    by rewrite Nat.sub_diag, take_ge, app_nil_r by lia.
  - intros v Hv Hn. rewrite (Hspec 0 Hn). f_equal.
    by apply previous_observation_0.
  - intros [|j] Hi Hlt; [lia|]. simpl. rewrite Nat.sub_0_r.
    destruct (lookup_lt_is_Some_2 test j) as [x Hx]; [lia|].
    rewrite (Hspec (S j) Hlt), Hx. f_equal.
    by apply previous_observation_S.
Qed.
End BaselineProperties.

(** The recurrence at a concrete history, [alpha = 0.5]. *)
Lemma exponential_smoothing_recurrence_witness :
  ∃ prediction,
    exponential_smoothing 0.5%float [1; 2; 3]%float [4; 5; 7]%float
    = Ok prediction ∧
    prediction !! 0 = Some 3%float ∧
    prediction !! 1 = Some 3.5%float ∧
    prediction !! 2 = Some 4.25%float.
Proof.
  destruct (exponential_smoothing_recurrence
              0.5%float [1; 2; 3]%float [4; 5; 7]%float)
    as (prediction & Hrun & Hlen & H0 & Hrec).
  exists prediction. split; [exact Hrun|].
  assert (prediction !! 0 = Some 3%float) as E0
    by (apply H0; [reflexivity | simpl; lia]).
  assert (prediction !! 1 = Some 3.5%float) as E1
    by (apply (Hrec 1 4%float 3%float); [lia | reflexivity | exact E0 | simpl; lia]).
  assert (prediction !! 2 = Some 4.25%float) as E2
    by (apply (Hrec 2 5%float 3.5%float); [lia | reflexivity | exact E1 | simpl; lia]).
  auto.
Defined.

(** C8: with training history [1,2,3] and test sequence [4,5] the naive
    walk-forward loop predicts [3,4], and the root-mean-squared error of
    these predictions against the test sequence is 1.0. *)
Theorem naive_scenario :
  naive_predictions [1; 2; 3]%float [4; 5]%float = Ok [3; 4]%float ∧
  rmse [3; 4]%float [4; 5]%float = Ok 1%float ∧
  (p ← naive_predictions [1; 2; 3]%float [4; 5]%float; rmse p [4; 5]%float)
  = Ok 1%float.
Proof. split_and!; reflexivity. Qed.

(** *** Smoothing with [alpha = 1] against the naive loop *)

(** C10, as stated, fails on IEEE doubles at two inputs.  After an infinite
    observation the smoothed prediction is [1*x + 0*inf = nan] while the
    naive one is [x]; and a revealed [-0.0] is predicted as [+0.0]
    ([-0.0 + 0.0]) while the naive loop keeps [-0.0]: the two arrays are
    not the same. *)
Lemma smoothing_alpha_1_differs :
  (exponential_smoothing 1%float [infinity] [1; 2]%float
     = Ok [infinity; nan] ∧
   naive_predictions [infinity] [1; 2]%float = Ok [infinity; 1%float] ∧
   exponential_smoothing 1%float [infinity] [1; 2]%float
     ≠ naive_predictions [infinity] [1; 2]%float) ∧
  (exponential_smoothing 1%float [1]%float [(-0)%float; 2%float]
     = Ok [1; 0]%float ∧
   naive_predictions [1]%float [(-0)%float; 2%float] = Ok [1; -0]%float ∧
   exponential_smoothing 1%float [1]%float [(-0)%float; 2%float]
     ≠ naive_predictions [1]%float [(-0)%float; 2%float]).
Proof.
  split_and!; try reflexivity.
  - intros E.
    apply (f_equal (fun r => match r with
                             | Ok [_; y] => is_nan y
                             | _ => false
                             end)) in E.
    vm_compute in E. discriminate E.
  - intros E.
    apply (f_equal (fun r => match r with
                             | Ok [_; y] => get_sign y
                             | _ => false
                             end)) in E.
    vm_compute in E. discriminate E.
Qed.

Lemma is_finite_previous_observation (train test : list float) i :
  Forall (fun x => is_finite x = true) train ->
  Forall (fun x => is_finite x = true) test ->
  is_finite (previous_observation train test i) = true.
Proof.
  intros Htrain Htest. destruct i as [|j]; simpl.
  - destruct (last train) as [v|] eqn:Hv; [|done]. simpl.
    rewrite Forall_forall in Htrain. apply Htrain.
    by eapply last_Some_elem_of.
  - destruct (test !! j) as [x|] eqn:Hx; [|done]. simpl.
    rewrite Forall_lookup in Htest. by eapply Htest.
Qed.

Lemma finite_eqb_refl x : is_finite x = true -> (x =? x)%float = true.
Proof.
  rewrite is_finite_spec, FloatAxioms.eqb_spec. apply SFeqb_refl.
Qed.

(** C10, amended: when every value of the training history and of the test
    sequence is finite, [exponential_smoothing(1.0)] and the naive loop
    return prediction arrays of the same length whose entries are pairwise
    equal as numbers (IEEE [==]), and every smoothed prediction is finite. *)
Theorem smoothing_alpha_1_equals_naive (train test : list float) :
  Forall (fun x => is_finite x = true) train ->
  Forall (fun x => is_finite x = true) test ->
  ∃ smoothed naive,
    exponential_smoothing 1%float train test = Ok smoothed ∧
    naive_predictions train test = Ok naive ∧
    Forall2 (fun a b => (a =? b)%float = true) smoothed naive ∧
    Forall (fun a => is_finite a = true) smoothed.
Proof.
  intros Htrain Htest.
  destruct (exponential_smoothing_spec 1%float train test)
    as (smoothed & Hs & Hslen & Hs0 & Hsrec).
  destruct (walk_forward_naive_spec train test) as (naive & Hn & Hnlen & Hnspec).
  exists smoothed, naive. split; [done|].
  split; [unfold naive_predictions; by rewrite Hn|].
  assert (∀ i, i < length test ->
            ∃ a, smoothed !! i = Some a ∧ is_finite a = true ∧
                 (a =? previous_observation train test i)%float = true)
    as Hall.
  { induction i as [|j IH]; intros Hi.
    - eexists. split; [by apply Hs0|].
      pose proof (is_finite_previous_observation train test 0 Htrain Htest).
      split; [done|]. by apply finite_eqb_refl.
    - destruct IH as (p & Hp & Hpfin & _); [lia|].
      eexists. split; [by apply Hsrec|].
      pose proof (is_finite_previous_observation train test (S j) Htrain Htest)
        as Hx.
      destruct (blend_alpha_1 _ p Hx Hpfin) as [Heq Hfin]. done. }
  split.
  - apply Forall2_same_length_lookup_2; [lia|].
    intros i a b Ha Hb. pose proof (lookup_lt_Some _ _ _ Ha) as Hi.
    destruct (Hall i) as (a' & Ha' & _ & Heq); [lia|].
    rewrite Hnspec in Hb by lia. congruence.
  - apply Forall_lookup_2. intros i a Ha.
    pose proof (lookup_lt_Some _ _ _ Ha) as Hi.
    destruct (Hall i) as (a' & Ha' & Hfin & _); [lia|]. congruence.
Qed.

(** The amended statement at the scenario of C8, and at a revealed [-0.0]. *)
Lemma smoothing_alpha_1_equals_naive_witness :
  ∃ smoothed naive,
    exponential_smoothing 1%float [1; 2; 3]%float [-0; 5]%float = Ok smoothed ∧
    naive_predictions [1; 2; 3]%float [-0; 5]%float = Ok naive ∧
    Forall2 (fun a b => (a =? b)%float = true) smoothed naive ∧
    Forall (fun a => is_finite a = true) smoothed.
Proof.
  apply (smoothing_alpha_1_equals_naive [1; 2; 3]%float [-0; 5]%float).
  - repeat constructor.
  - repeat constructor.
Defined.

(** ** Tensors *)

Section TorchFacts.
Context {F : Type} {arith : Arith F}.
Implicit Types (t input : Tensor F) (ts : list (Tensor F)).

Lemma zeros_all_zero n m r x :
  r ∈ rows (torch.zeros n m) -> x ∈ r -> x = fzero.
Proof.
  unfold torch.zeros. simpl. intros Hr Hx.
  apply elem_of_replicate_inv in Hr as ->.
  by apply elem_of_replicate_inv in Hx.
Qed.

Lemma zeros_size0 n m : size0 (torch.zeros (F:=F) n m) = n.
Proof. unfold size0. simpl. apply length_replicate. Qed.

Lemma zeros_row n m b :
  b < n -> rows (torch.zeros (F:=F) n m) !! b = Some (replicate m fzero).
Proof. intros Hb. simpl. by apply lookup_replicate_2. Qed.

Lemma zeros_wf n m : wf_tensor (torch.zeros (F:=F) n m).
Proof.
  unfold wf_tensor. simpl. apply Forall_replicate. apply length_replicate.
Qed.

Lemma narrow_size0 t start len : size0 (torch.narrow t start len) = size0 t.
Proof. unfold size0. simpl. apply length_fmap. Qed.

(** [split] yields at least one chunk, and the first is the leading
    column(s) of the tensor. *)
Lemma split_cons input :
  ∃ rest, torch.split input
          = torch.narrow input 0 (torch.chunk_width input) :: rest.
Proof.
  unfold torch.split, torch.chunk_width.
  destruct (size1 input) as [|n]; simpl; eauto.
Qed.

Lemma length_split input : length (torch.split input) = max 1 (size1 input).
Proof.
  unfold torch.split. destruct (size1 input) as [|n] eqn:E; [done|].
  rewrite length_fmap, length_seq. lia.
Qed.

Lemma split_sizes input c :
  c ∈ torch.split input ->
  size1 c = torch.chunk_width input ∧ size0 c = size0 input.
Proof.
  unfold torch.split, torch.chunk_width.
  destruct (size1 input) as [|n] eqn:E.
  - intros ->%list_elem_of_singleton. by rewrite narrow_size0.
  - intros (j & -> & _)%list_elem_of_fmap. by rewrite narrow_size0.
Qed.

Lemma cat_size1_fold (O : nat) ts n :
  Forall (fun t => size1 t = O) ts ->
  foldl (fun n t => n + size1 t) n ts = n + length ts * O.
Proof.
  revert n. induction ts as [|t ts IH]; intros n Hts; simpl; [lia|].
  apply Forall_cons in Hts as [Ht Hts]. rewrite IH by done. lia.
Qed.

(** The columns of a concatenation add up. *)
Lemma cat_size1 (O : nat) ts t :
  torch.cat ts = Ok t -> Forall (fun t => size1 t = O) ts ->
  size1 t = length ts * O.
Proof.
  destruct ts as [|t0 rest]; [done|]. simpl.
  case_decide; [|done]. intros [= <-] [Ht0 Hrest]%Forall_cons. simpl.
  rewrite (cat_size1_fold O) by done. lia.
Qed.

Lemma cat_rows_fold ts (acc : list (list F)) n :
  Forall (fun r => length r = n) acc ->
  Forall (fun t => wf_tensor t ∧ size0 t = length acc) ts ->
  let rs := foldl (fun acc t => zip_with app acc (rows t)) acc ts in
  length rs = length acc ∧
  Forall (fun r => length r = foldl (fun n t => n + size1 t) n ts) rs ∧
  ∀ i a, acc !! i = Some a -> ∃ r, rs !! i = Some r ∧ a `prefix_of` r.
Proof.
  revert acc n. induction ts as [|t ts IH]; intros acc n Hacc Hts; simpl.
  - split_and!; [done | done |]. intros i a Ha. by exists a.
  - apply Forall_cons in Hts as [[Hwf Hsz] Hts].
    set (acc' := zip_with app acc (rows t)).
    assert (length acc' = length acc) as Hlen.
    { unfold acc'. rewrite length_zip_with. unfold size0 in Hsz. lia. }
    destruct (IH acc' (n + size1 t)) as (IH1 & IH2 & IH3).
    + apply Forall_lookup_2. intros i r Hr.
      apply lookup_zip_with_Some in Hr as (a & b & -> & Ha & Hb).
      rewrite length_app.
      rewrite (Forall_lookup_1 _ _ _ _ Hacc Ha).
      by rewrite (Forall_lookup_1 _ _ _ _ Hwf Hb).
    + rewrite Hlen. done.
    + split_and!; [lia | done |].
      intros i a Ha.
      destruct (lookup_lt_is_Some_2 (rows t) i) as [b Hb].
      { apply lookup_lt_Some in Ha. unfold size0 in Hsz. lia. }
      destruct (IH3 i (a ++ b)) as (r & Hr & Hpre).
      { unfold acc'. apply lookup_zip_with_Some. eauto. }
      exists r. split; [done|]. by eapply prefix_app_l.
Qed.

Lemma cat_rows_prefix ts (acc : list (list F)) :
  Forall (fun t => size0 t = length acc) ts ->
  ∀ i a, acc !! i = Some a ->
    ∃ r, foldl (fun acc t => zip_with app acc (rows t)) acc ts !! i = Some r ∧
         a `prefix_of` r.
Proof.
  revert acc. induction ts as [|t ts IH]; intros acc Hts i a Ha; simpl.
  - by exists a.
  - apply Forall_cons in Hts as [Hsz Hts]. unfold size0 in Hsz.
    destruct (lookup_lt_is_Some_2 (rows t) i) as [b Hb].
    { apply lookup_lt_Some in Ha. lia. }
    destruct (IH (zip_with app acc (rows t))) with (i := i) (a := a ++ b)
      as (r & Hr & Hpre).
    + rewrite length_zip_with. unfold size0.
      eapply Forall_impl; [exact Hts|]. simpl. unfold size0. lia.
    + apply lookup_zip_with_Some. eauto.
    + exists r. split; [done|]. by eapply prefix_app_l.
Qed.

(** Each row of a concatenation starts with the row of the first tensor. *)
Lemma cat_prefix t0 rest t :
  torch.cat (t0 :: rest) = Ok t ->
  ∀ i a, rows t0 !! i = Some a -> ∃ r, rows t !! i = Some r ∧ a `prefix_of` r.
Proof.
  simpl. case_decide as Hsz; [|done]. intros [= <-]. simpl.
  by apply cat_rows_prefix.
Qed.

(** A concatenation of well-formed tensors is well formed, has the rows
    of its arguments, and each of its rows starts with the row of the first
    argument. *)
Lemma cat_wf t0 rest t :
  torch.cat (t0 :: rest) = Ok t -> Forall wf_tensor (t0 :: rest) ->
  wf_tensor t ∧ size0 t = size0 t0 ∧
  ∀ i a, rows t0 !! i = Some a -> ∃ r, rows t !! i = Some r ∧ a `prefix_of` r.
Proof.
  simpl. case_decide as Hsz; [|done].
  intros [= <-] [Ht0 Hrest]%Forall_cons.
  destruct (cat_rows_fold rest (rows t0) (size1 t0)) as (H1 & H2 & H3).
  - done.
  - apply Forall_forall. intros u Hu. split.
    + by eapply (proj1 (Forall_forall _ _) Hrest).
    + by eapply (proj1 (Forall_forall _ _) Hsz).
  - unfold wf_tensor, size0. simpl. done.
Qed.
End TorchFacts.

(** ** The cell, the projection and the loop of [forward] *)

Section RNNFacts.
Context {F : Type} {arith : Arith F} {activation : Activation F}.
Implicit Types (self : RNN.t F) (input hidden trace : Tensor F)
               (outputs : list (Tensor F)).

Lemma cell_forward_Ok (c : RNNCell.t F) input hidden hidden' :
  RNNCell.forward c input hidden = Ok hidden' ->
  size1 input = RNNCell.input_size c ∧
  size1 hidden = RNNCell.hidden_size c ∧
  size1 hidden' = RNNCell.hidden_size c ∧
  size0 hidden' = size0 input ∧ size0 hidden = size0 input.
Proof.
  unfold RNNCell.forward. repeat case_decide; try done.
  intros [= <-]. unfold size0 in *. simpl.
  rewrite length_zip_with. split_and!; lia.
Qed.

Lemma cell_forward_returns (c : RNNCell.t F) input hidden :
  size1 input = RNNCell.input_size c ->
  size0 hidden = size0 input ->
  size1 hidden = RNNCell.hidden_size c ->
  ∃ hidden', RNNCell.forward c input hidden = Ok hidden'.
Proof.
  intros H1 H2 H3. unfold RNNCell.forward.
  rewrite !decide_False by (intros ?; congruence). eauto.
Qed.

Lemma linear_forward_Ok (l : Linear.t F) hidden output :
  Linear.forward l hidden = Ok output ->
  size1 hidden = Linear.in_features l ∧
  size1 output = Linear.out_features l ∧
  size0 output = size0 hidden ∧
  (Linear.wf l -> wf_tensor output).
Proof.
  unfold Linear.forward. case_decide; [done|]. intros [= <-].
  unfold size0, wf_tensor. simpl. rewrite length_fmap.
  split_and!; [lia | done | done |].
  intros [Hw Hb]. apply Forall_fmap, Forall_forall. intros x _. simpl.
  unfold torch.affine. rewrite length_zip_with, length_fmap. lia.
Qed.

Lemma linear_forward_returns (l : Linear.t F) hidden :
  size1 hidden = Linear.in_features l ->
  ∃ output, Linear.forward l hidden = Ok output.
Proof.
  intros H1. unfold Linear.forward. rewrite decide_False by congruence. eauto.
Qed.

(** One iteration that returns has run the cell on the carried state and
    appended the projection of the new state. *)
Lemma forward_body_Ok self input_t hidden outputs hidden' outputs' :
  RNN.forward_body self input_t (hidden, outputs) = Ok (hidden', outputs') ->
  ∃ output,
    RNNCell.forward (RNN.rnn1 self) input_t hidden = Ok hidden' ∧
    Linear.forward (RNN.linear self) hidden' = Ok output ∧
    outputs' = outputs ++ [output].
Proof.
  unfold RNN.forward_body.
  destruct (RNNCell.forward _ _ _) as [h1|e] eqn:E1; [|done]. simpl.
  destruct (Linear.forward _ _) as [y|e] eqn:E2; [|done]. simpl.
  intros [= <- <-]. eauto.
Qed.

(** A loop that returns has appended one projection per chunk. *)
Lemma for_in_forward_body_Ok self chunks hidden outputs hidden' outputs' :
  for_in chunks (RNN.forward_body self) (hidden, outputs)
  = Ok (hidden', outputs') ->
  ∃ new,
    outputs' = outputs ++ new ∧ length new = length chunks ∧
    Forall (fun y => size1 y = Linear.out_features (RNN.linear self) ∧
                     (Linear.wf (RNN.linear self) -> wf_tensor y)) new.
Proof.
  revert hidden outputs. induction chunks as [|c cs IH]; intros hidden outputs.
  - intros [= <- <-]. exists []. by rewrite app_nil_r.
  - cbn [for_in].
    destruct (RNN.forward_body self c (hidden, outputs)) as [[h1 o1]|e] eqn:E;
      simpl; [|discriminate].
    apply forward_body_Ok in E as (y & Hcell & Hlin & ->).
    intros (new & -> & Hlen & Hnew)%IH.
    exists (y :: new). rewrite <- app_assoc. split_and!; [done | simpl; lia |].
    apply Forall_cons. split; [|done].
    destruct (linear_forward_Ok _ _ _ Hlin) as (_ & Hy1 & _ & Hywf). done.
Qed.

(** On chunks of the configured width the loop returns, and its outputs
    have the rows of the carried state. *)
Lemma for_in_forward_body_returns self (B : nat) chunks hidden outputs :
  Linear.in_features (RNN.linear self) = RNNCell.hidden_size (RNN.rnn1 self) ->
  Forall (fun c => size1 c = RNNCell.input_size (RNN.rnn1 self) ∧ size0 c = B)
         chunks ->
  size1 hidden = RNNCell.hidden_size (RNN.rnn1 self) -> size0 hidden = B ->
  ∃ hidden' new,
    for_in chunks (RNN.forward_body self) (hidden, outputs)
    = Ok (hidden', outputs ++ new) ∧
    size1 hidden' = RNNCell.hidden_size (RNN.rnn1 self) ∧ size0 hidden' = B ∧
    Forall (fun y => size0 y = B) new.
Proof.
  intros Hlin. revert hidden outputs.
  induction chunks as [|c cs IH]; intros hidden outputs Hcs Hh1 Hh0.
  - exists hidden, []. by rewrite app_nil_r.
  - apply Forall_cons in Hcs as [[Hc1 Hc0] Hcs]. simpl.
    destruct (cell_forward_returns (RNN.rnn1 self) c hidden) as [h1 E1];
      [done | congruence | done |].
    pose proof (cell_forward_Ok _ _ _ _ E1) as (_ & _ & Hh1' & Hh0' & _).
    destruct (linear_forward_returns (RNN.linear self) h1) as [y E2];
      [congruence|].
    pose proof (linear_forward_Ok _ _ _ E2) as (_ & _ & Hy0 & _).
    rewrite E1. simpl. rewrite E2. simpl.
    destruct (IH h1 (outputs ++ [y])) as (h' & new & Hrun & ? & ? & Hnew);
      [done | done | congruence |].
    exists h', (y :: new). rewrite <- app_assoc in Hrun.
    split_and!; [done | done | done |].
    apply Forall_cons. split; [congruence | done].
Qed.

(** [forward] returns on a model as [__init__] builds it whose cell takes
    inputs of the width of the chunks: the trace has one block of
    [out_features] columns per chunk and the rows of the input. *)
Lemma forward_returns self input future :
  RNN.wf self ->
  RNNCell.input_size (RNN.rnn1 self) = torch.chunk_width input ->
  ∃ trace hidden,
    RNN.forward self input future = Ok (trace, hidden) ∧
    size1 trace = max 1 (size1 input) * Linear.out_features (RNN.linear self) ∧
    size0 trace = size0 input ∧ wf_tensor trace ∧
    size1 hidden = RNN.hidden_size self ∧ size0 hidden = size0 input.
Proof.
  intros (Hcell & Hin & Hcwf & Hlwf) Hwidth. unfold RNN.forward.
  destruct (for_in_forward_body_returns self (size0 input)
              (torch.split input)
              (torch.zeros (size0 input) (RNN.hidden_size self)) [])
    as (hidden & new & Hrun & Hh1 & Hh0 & Hnew0).
  - congruence.
  - apply Forall_forall. intros c [Hc1 Hc0]%split_sizes.
    split; congruence.
  - simpl. congruence.
  - apply zeros_size0.
  - rewrite Hrun. simpl.
    apply for_in_forward_body_Ok in Hrun as (new' & Hnew' & Hlen & Hnew).
    simpl in Hnew'. subst new'. rewrite length_split in Hlen.
    destruct new as [|y ys]; [simpl in Hlen; lia|].
    assert (torch.cat (y :: ys)
            = Ok {| size1 := foldl (fun n t => n + size1 t) (size1 y) ys;
                    rows := foldl (fun acc t => zip_with app acc (rows t))
                                  (rows y) ys |}) as Hcat.
    { simpl. rewrite decide_True; [done|].
      apply Forall_cons in Hnew0 as [Hy0 Hys0].
      eapply Forall_impl; [exact Hys0|]. simpl. congruence. }
    rewrite Hcat. simpl. eexists _, _. split; [done|].
    destruct (cat_wf _ _ _ Hcat) as (Hwf & Hsz & _).
    { eapply Forall_impl; [exact Hnew|]. intros u [_ Hu]. by apply Hu. }
    split_and!; [ | | done | congruence | done].
    + rewrite (cat_size1 (Linear.out_features (RNN.linear self)) _ _ Hcat).
      * by rewrite Hlen.
      * eapply Forall_impl; [exact Hnew|]. by intros u [Hu _].
    + rewrite Hsz. by apply Forall_cons in Hnew0 as [-> _].
Qed.

(** On an input without columns the only chunk has width 0 and fails the
    input-size check of a cell that expects a positive width. *)
Lemma forward_no_column_raises self input future :
  size1 input = 0 -> RNNCell.input_size (RNN.rnn1 self) ≠ 0 ->
  RNN.forward self input future = Raise (RuntimeError InputSizeCheck).
Proof.
  intros HT Hin. unfold RNN.forward, torch.split. rewrite HT.
  cbn [for_in]. unfold RNN.forward_body, RNNCell.forward. simpl.
  by rewrite decide_True by congruence.
Qed.
End RNNFacts.

(** ** The unroll driver [RNN.forward] *)

Section ForwardProperties.
Context {F : Type} {arith : Arith F} {activation : Activation F}.
Implicit Types (self : RNN.t F) (input hidden trace : Tensor F).

(** C9, amended: in [forward] as the notebook gives it the parameter
    [future] has no effect: the outcome, returned pair [(outputs, hidden)]
    or exception, is that of the call with [future = 0].  The trace a call
    returns has one block of [out_features] columns per chunk of
    [input.split(1, dim=1)]: [T] blocks for a sequence of [T >= 1] steps
    ([T] columns for a model with one output), and one block for [T = 0],
    which only a cell with [input_size = 0] lets through.  A model built by
    [__init__] for inputs of width 1 does return on every non-empty
    sequence. *)
Theorem forward_ignores_future self input future :
  RNN.forward self input future = RNN.forward self input 0 ∧
  (∀ trace hidden,
     RNN.forward self input future = Ok (trace, hidden) ->
     size1 trace
     = max 1 (size1 input) * Linear.out_features (RNN.linear self) ∧
     (0 < size1 input ->
      size1 trace = size1 input * Linear.out_features (RNN.linear self) ∧
      (Linear.out_features (RNN.linear self) = 1 ->
       size1 trace = size1 input)) ∧
     (size1 input = 0 -> RNNCell.input_size (RNN.rnn1 self) = 0)) ∧
  (RNN.wf self -> RNNCell.input_size (RNN.rnn1 self) = 1 ->
   0 < size1 input ->
   ∃ trace hidden,
     RNN.forward self input future = Ok (trace, hidden) ∧
     wf_tensor trace ∧ size0 trace = size0 input).
Proof.
  split; [reflexivity|]. split.
  - intros trace hidden Hrun.
    assert (size1 input = 0 -> RNNCell.input_size (RNN.rnn1 self) = 0) as Hempty.
    { intros HT. destruct (decide (RNNCell.input_size (RNN.rnn1 self) = 0));
        [done|]. by rewrite forward_no_column_raises in Hrun. }
    unfold RNN.forward in Hrun.
    destruct (for_in _ _ _) as [[h outputs]|e] eqn:Hloop; [|done].
    simpl in Hrun.
    destruct (torch.cat outputs) as [t|e] eqn:Hcat; [|done].
    injection Hrun as -> ->.
    apply for_in_forward_body_Ok in Hloop as (new & -> & Hlen & Hnew).
    simpl in Hcat. rewrite length_split in Hlen.
    assert (size1 trace
            = length new * Linear.out_features (RNN.linear self)) as ->.
    { apply (cat_size1 _ _ _ Hcat).
      eapply Forall_impl; [exact Hnew|]. by intros y [Hy _]. }
    rewrite Hlen. split_and!; [done | | done].
    intros HT. replace (max 1 (size1 input)) with (size1 input) by lia.
    split; [done|]. intros ->. lia.
  - intros Hwf Hone HT.
    destruct (forward_returns self input future Hwf)
      as (trace & hidden & Hrun & _ & Hsz & Hwft & _).
    { unfold torch.chunk_width. lia. }
    eauto.
Qed.

(** C3: every call starts the carried state from
    [zeros(input.size(0), hidden_size)], the tensor with one row per signal
    of the batch, each row being [hidden_size] zeros; the first iteration
    runs the cell on the first chunk of the input and that zero state; the
    trace of a call that returns starts with the projection of this first
    new state, and on a single-chunk input the returned state is this first
    new state. *)
Theorem forward_starts_from_zero_state self input future :
  let zero_state := torch.zeros (size0 input) (RNN.hidden_size self) in
  let input_0 := torch.narrow input 0 (torch.chunk_width input) in
  (size0 zero_state = size0 input ∧ size1 zero_state = RNN.hidden_size self ∧
   wf_tensor zero_state ∧
   (∀ b, b < size0 input ->
         rows zero_state !! b = Some (replicate (RNN.hidden_size self) fzero)) ∧
   (∀ b j, b < size0 input -> j < RNN.hidden_size self ->
           rows zero_state !! b ≫= (.!! j) = Some fzero) ∧
   ∀ r x, r ∈ rows zero_state -> x ∈ r -> x = fzero) ∧
  (∃ rest,
     torch.split input = input_0 :: rest ∧
     RNN.forward self input future
     = (hidden1 ← RNNCell.forward (RNN.rnn1 self) input_0 zero_state;
        output1 ← Linear.forward (RNN.linear self) hidden1;
        st ← for_in rest (RNN.forward_body self) (hidden1, [output1]);
        outputs ← torch.cat (snd st);
        Ok (outputs, fst st))) ∧
  (∀ trace hidden,
     RNN.forward self input future = Ok (trace, hidden) ->
     ∃ hidden1 output1,
       RNNCell.forward (RNN.rnn1 self) input_0 zero_state = Ok hidden1 ∧
       Linear.forward (RNN.linear self) hidden1 = Ok output1 ∧
       (∀ i a, rows output1 !! i = Some a ->
               ∃ r, rows trace !! i = Some r ∧ a `prefix_of` r) ∧
       (size1 input ≤ 1 -> hidden = hidden1)).
Proof.
  intros zero_state input_0.
  destruct (split_cons input) as [rest Hsplit]. fold input_0 in Hsplit.
  assert (RNN.forward self input future
     = (hidden1 ← RNNCell.forward (RNN.rnn1 self) input_0 zero_state;
        output1 ← Linear.forward (RNN.linear self) hidden1;
        st ← for_in rest (RNN.forward_body self) (hidden1, [output1]);
        outputs ← torch.cat (snd st);
        Ok (outputs, fst st))) as Hfwd.
  { unfold RNN.forward. rewrite Hsplit. cbn [for_in]. fold zero_state.
    change (RNN.forward_body self input_0 (zero_state, []))
      with (hidden1 ← RNNCell.forward (RNN.rnn1 self) input_0 zero_state;
            output1 ← Linear.forward (RNN.linear self) hidden1;
            Ok (hidden1, [] ++ [output1])).
    destruct (RNNCell.forward _ _ _) as [h1|e]; [|reflexivity]. simpl.
    destruct (Linear.forward _ _) as [y1|e]; reflexivity. }
  split_and!.
  - apply zeros_size0.
  - done.
  - apply zeros_wf.
  - intros b Hb. by apply zeros_row.
  - intros b j Hb Hj. unfold zero_state. rewrite zeros_row by done. simpl.
    by apply lookup_replicate_2.
  - apply zeros_all_zero.
  - eauto.
  - intros trace hidden Hrun. rewrite Hfwd in Hrun.
    destruct (RNNCell.forward (RNN.rnn1 self) input_0 zero_state)
      as [h1|e] eqn:E1; [|done]. simpl in Hrun.
    destruct (Linear.forward (RNN.linear self) h1) as [y1|e] eqn:E2; [|done].
    simpl in Hrun.
    destruct (for_in _ _ _) as [[h outputs]|e] eqn:Hloop; [|done].
    simpl in Hrun.
    destruct (torch.cat outputs) as [t|e] eqn:Hcat; [|done].
    injection Hrun as -> ->.
    exists h1, y1. split_and!; [done | done | |].
    + apply for_in_forward_body_Ok in Hloop as (new & -> & _ & _).
      simpl in Hcat. by apply (cat_prefix _ _ _ Hcat).
    + intros HT. pose proof (length_split input) as Hlen.
      rewrite Hsplit in Hlen. simpl in Hlen.
      destruct rest; [|simpl in Hlen; lia].
      simpl in Hloop. by injection Hloop as -> _.
Qed.

(** C6, amended: on the empty sequence ([T = 0]) the only chunk that
    [split] yields has width 0.  A model whose cell takes inputs of a
    non-zero width raises on it, for every [future], zero or not, and
    returns no trace: the exception is the [RuntimeError] of the cell's
    input-size check, the one a wrong input width raises on any sequence
    (the notebook has no exception of its own for the empty sequence).  A
    model built by [__init__] whose cell has [input_size = 0] returns
    instead, a trace of one block. *)
Theorem forward_on_empty_sequence self input future :
  size1 input = 0 ->
  (RNNCell.input_size (RNN.rnn1 self) ≠ 0 ->
   RNN.forward self input future = Raise (RuntimeError InputSizeCheck) ∧
   ∀ trace hidden, RNN.forward self input future ≠ Ok (trace, hidden)) ∧
  (RNNCell.input_size (RNN.rnn1 self) = 0 -> RNN.wf self ->
   ∃ trace hidden,
     RNN.forward self input future = Ok (trace, hidden) ∧
     size1 trace = Linear.out_features (RNN.linear self) ∧
     size0 trace = size0 input).
Proof.
  intros HT. split.
  - intros Hin. rewrite forward_no_column_raises by done. done.
  - intros Hin Hwf.
    destruct (forward_returns self input future Hwf)
      as (trace & hidden & Hrun & Hsz1 & Hsz0 & _).
    { unfold torch.chunk_width. rewrite HT, Hin. done. }
    exists trace, hidden. split_and!; [done | | done].
    rewrite Hsz1, HT. simpl. lia.
Qed.

(** C7: when the width of the input at a step differs from the cell's
    [input_size], or the width of the state from the cell's [hidden_size],
    the call raises the [RuntimeError] of the corresponding shape check on
    its first iteration and returns nothing: no trace, partial or not. *)
Theorem forward_shape_mismatch_raises self input future :
  torch.chunk_width input ≠ RNNCell.input_size (RNN.rnn1 self) ∨
  RNN.hidden_size self ≠ RNNCell.hidden_size (RNN.rnn1 self) ->
  ∃ c, RNN.forward self input future = Raise (RuntimeError c) ∧
       (c = InputSizeCheck ∨ c = HiddenSizeCheck) ∧
       ∀ trace hidden, RNN.forward self input future ≠ Ok (trace, hidden).
Proof.
  intros Hbad. destruct (split_cons input) as [rest Hsplit].
  assert (∃ c, RNN.forward self input future = Raise (RuntimeError c) ∧
               (c = InputSizeCheck ∨ c = HiddenSizeCheck)) as (c & Hc & Hkind).
  { unfold RNN.forward. rewrite Hsplit. cbn [for_in].
    unfold RNN.forward_body, RNNCell.forward.
    change (size1 (torch.narrow input 0 (torch.chunk_width input)))
      with (torch.chunk_width input).
    rewrite narrow_size0, zeros_size0.
    change (size1 (torch.zeros (size0 input) (RNN.hidden_size self)))
      with (RNN.hidden_size self).
    destruct (decide (torch.chunk_width input
                      ≠ RNNCell.input_size (RNN.rnn1 self))) as [Hw|Hw].
    - exists InputSizeCheck. split; [done | by left].
    - rewrite decide_False by (intros Hne; by apply Hne).
      destruct Hbad as [Hbad|Hbad]; [done|].
      rewrite decide_True by done.
      exists HiddenSizeCheck. split; [done | by right]. }
  exists c. split_and!; [done | done |]. intros trace hidden. by rewrite Hc.
Qed.
End ForwardProperties.

(** C9 at the small instance, [future = 5]: the call returns what the call
    with [future = 0] returns, a trace of 2 columns. *)
Lemma forward_ignores_future_witness :
  RNN.forward (activation := identity_activation) demo_rnn demo_input 5
  = RNN.forward (activation := identity_activation) demo_rnn demo_input 0 ∧
  RNN.forward (activation := identity_activation) demo_rnn demo_input 5
  = Ok ({| size1 := 2; rows := [[2; 3.25]]%float |},
        {| size1 := 1; rows := [[1.125]]%float |}) ∧
  size1 {| size1 := 2; rows := [[2; 3.25]]%float |} = size1 demo_input.
Proof.
  destruct (forward_ignores_future (activation := identity_activation)
              demo_rnn demo_input 5) as (Heq & Hlen & _).
  split; [exact Heq|]. split; [reflexivity|].
  destruct (Hlen {| size1 := 2; rows := [[2; 3.25]]%float |}
                 {| size1 := 1; rows := [[1.125]]%float |})
    as (_ & Hpos & _); [reflexivity|].
  apply Hpos; [simpl; lia | reflexivity].
Defined.

(** C9 as stated fails on the empty sequence: [RNN(0, 1, 1)] returns, for
    [T = 0] and whatever the activation, a trace of one column. *)
Lemma forward_trace_longer_than_sequence :
  size1 empty_input = 0 ∧
  ∀ activation : Activation float,
    ∃ trace hidden,
      RNN.forward featureless_rnn empty_input 0 = Ok (trace, hidden) ∧
      size1 trace = 1 ∧ Forall (fun r => length r = 1) (rows trace) ∧
      size1 trace ≠ size1 empty_input.
Proof.
  split; [reflexivity|]. intros activation.
  eexists _, _. split; [reflexivity|].
  split_and!; [done | repeat constructor | done].
Qed.

(** C6 at the small instance: no sample, [future = 5]. *)
Lemma forward_on_empty_sequence_witness :
  RNN.forward (activation := identity_activation) demo_rnn empty_input 5
  = Raise (RuntimeError InputSizeCheck).
Proof.
  destruct (forward_on_empty_sequence (activation := identity_activation)
              demo_rnn empty_input 5) as [Hraise _]; [reflexivity|].
  apply Hraise. simpl. lia.
Defined.

(** C6 as stated fails in two ways.  [RNN(0, 1, 1)] returns a trace on the
    empty sequence with [future = 5], whatever the activation; and where the
    call does raise, on [RNN(1, 1, 1)], the exception is that of a wrong
    input width, raised with [future = 0] as well. *)
Lemma forward_empty_sequence_returns :
  (size1 empty_input = 0 ∧ (0 < 5)%Z ∧
   ∀ activation : Activation float,
     ∃ trace hidden,
       RNN.forward featureless_rnn empty_input 5 = Ok (trace, hidden) ∧
       size1 trace = 1) ∧
  (∀ activation : Activation float,
     RNN.forward demo_rnn empty_input 5 = Raise (RuntimeError InputSizeCheck) ∧
     RNN.forward demo_rnn empty_input 0 = Raise (RuntimeError InputSizeCheck) ∧
     RNN.forward (RNN.__init__ 2 1 1 [[0.5; 0.5]] [[0.25]] [0] [0] [[2]] [1])%float
                 demo_input 0
     = Raise (RuntimeError InputSizeCheck)).
Proof.
  split.
  - split; [reflexivity|]. split; [lia|]. intros activation.
    eexists _, _. split; reflexivity.
  - intros activation. split_and!; reflexivity.
Qed.

(** C7 at a cell configured for two features per step, fed one signal. *)
Lemma forward_shape_mismatch_raises_witness :
  ∃ c, RNN.forward (activation := identity_activation)
         (RNN.__init__ 2 1 1 [[0.5; 0.5]] [[0.25]] [0] [0] [[2]] [1])%float
         demo_input 0
       = Raise (RuntimeError c) ∧
       (c = InputSizeCheck ∨ c = HiddenSizeCheck) ∧
       ∀ trace hidden,
         RNN.forward (activation := identity_activation)
           (RNN.__init__ 2 1 1 [[0.5; 0.5]] [[0.25]] [0] [0] [[2]] [1])%float
           demo_input 0
         ≠ Ok (trace, hidden).
Proof.
  apply (forward_shape_mismatch_raises (activation := identity_activation)).
  left. vm_compute. lia.
Defined.

(** *** The look-ahead that [forward] does not have *)

(** C1 at [T = 2]: with [future = 0] the call returns a trace of 2 columns,
    the length of the input; with [future = 5] it returns the same trace of
    2 columns, where a look-ahead of 5 steps would give [T + future = 7]. *)
Theorem forward_future_5_trace_length `{Activation float} :
  ∃ trace hidden,
    RNN.forward demo_rnn demo_input 0 = Ok (trace, hidden) ∧
    RNN.forward demo_rnn demo_input 5 = Ok (trace, hidden) ∧
    size1 demo_input = 2 ∧ size1 trace = 2 ∧
    Forall (fun r => length r = 2) (rows trace).
Proof.
  eexists _, _. split; [reflexivity|]. split_and!; [done | done | done |].
  repeat constructor.
Qed.

(** C2 at [T = 2], [future = 3]: the returned trace is the concatenation of
    the two projections computed from the two real samples, and the
    returned state is the state after the second real sample; no step has
    taken the last output as its input. *)
Theorem forward_future_takes_no_closed_loop_step `{Activation float} :
  ∃ hidden1 output1 hidden2 output2 trace,
    RNNCell.forward (RNN.rnn1 demo_rnn) (torch.narrow demo_input 0 1)
                    (torch.zeros 1 1) = Ok hidden1 ∧
    Linear.forward (RNN.linear demo_rnn) hidden1 = Ok output1 ∧
    RNNCell.forward (RNN.rnn1 demo_rnn) (torch.narrow demo_input 1 1)
                    hidden1 = Ok hidden2 ∧
    Linear.forward (RNN.linear demo_rnn) hidden2 = Ok output2 ∧
    torch.cat [output1; output2] = Ok trace ∧
    RNN.forward demo_rnn demo_input 3 = Ok (trace, hidden2).
Proof. eexists _, _, _, _, _. split_and!; reflexivity. Qed.

(** ** The other cells of the notebook *)

(** *** Slices *)

Lemma py_slice_init {A} (r : list A) :
  py_slice r None (Some (-1)%Z) = take (length r - 1) r.
Proof.
  unfold py_slice, py_slice_index. cbn [from_option]. rewrite decide_True by lia.
  rewrite drop_0. f_equal. lia.
Qed.

Lemma py_slice_tail {A} (r : list A) : py_slice r (Some 1%Z) None = drop 1 r.
Proof.
  unfold py_slice, py_slice_index. cbn [from_option]. rewrite decide_False by lia.
  destruct r as [|x r]; [done|]. simpl length.
  replace (Z.to_nat (Z.min 1 (Z.of_nat (S (length r))))) with 1 by lia.
  apply take_ge. rewrite length_drop. simpl. lia.
Qed.

Lemma py_slice_first_3 {A} (l : list A) : py_slice l None (Some 3%Z) = take 3 l.
Proof.
  unfold py_slice, py_slice_index. cbn [from_option]. rewrite decide_False by lia.
  rewrite drop_0, Nat.sub_0_r.
  destruct (decide (3 ≤ length l)).
  - f_equal. lia.
  - rewrite !take_ge by lia. done.
Qed.

Lemma py_slice_from_3 {A} (l : list A) : py_slice l (Some 3%Z) None = drop 3 l.
Proof.
  unfold py_slice, py_slice_index. cbn [from_option]. rewrite decide_False by lia.
  destruct (decide (3 ≤ length l)).
  - replace (Z.to_nat (Z.min 3 (Z.of_nat (length l)))) with 3 by lia.
    apply take_ge. rewrite length_drop. lia.
  - replace (Z.to_nat (Z.min 3 (Z.of_nat (length l)))) with (length l) by lia.
    rewrite Nat.sub_diag, take_0. symmetry. apply drop_ge. lia.
Qed.

(** A full window: the five elements before position [t]. *)
Lemma py_slice_window {A} (h : list A) (t : nat) :
  5 ≤ t -> t ≤ length h ->
  py_slice h (Some (Z.of_nat t - 5)%Z) (Some (Z.of_nat t))
  = take 5 (drop (t - 5) h).
Proof.
  intros H5 Ht. unfold py_slice, py_slice_index. cbn [from_option].
  rewrite !decide_False by lia.
  replace (Z.to_nat (Z.min (Z.of_nat t - 5) (Z.of_nat (length h))))
    with (t - 5) by lia.
  replace (Z.to_nat (Z.min (Z.of_nat t) (Z.of_nat (length h)))) with t by lia.
  f_equal. lia.
Qed.

(** Before position 5 of an array of at least five elements the start of
    the window wraps around to the end of the array, past its stop. *)
Lemma py_slice_wrapped {A} (h : list A) (t : nat) :
  t < 5 -> 5 ≤ length h ->
  py_slice h (Some (Z.of_nat t - 5)%Z) (Some (Z.of_nat t)) = [].
Proof.
  intros H5 Hh. unfold py_slice, py_slice_index. cbn [from_option].
  rewrite (decide_True (P := (Z.of_nat t - 5 < 0)%Z)) by lia.
  rewrite (decide_False (P := (Z.of_nat t < 0)%Z)) by lia.
  replace (Z.to_nat (Z.min (Z.of_nat t) (Z.of_nat (length h))) -
           Z.to_nat (Z.of_nat (length h) + (Z.of_nat t - 5))) with 0 by lia.
  done.
Qed.

(** In an array of fewer than five elements the wrapped start of the window
    stays before its stop: the window holds the elements from position
    [len(h) + t - 5] (from 0 when that is negative) up to [t]. *)
Lemma py_slice_short {A} (h : list A) (t : nat) :
  t ≤ length h -> length h < 5 ->
  py_slice h (Some (Z.of_nat t - 5)%Z) (Some (Z.of_nat t))
  = drop (length h + t - 5) (take t h).
Proof.
  intros Ht Hh. unfold py_slice, py_slice_index. cbn [from_option].
  rewrite (decide_True (P := (Z.of_nat t - 5 < 0)%Z)) by lia.
  rewrite (decide_False (P := (Z.of_nat t < 0)%Z)) by lia.
  replace (Z.to_nat (Z.min (Z.of_nat t) (Z.of_nat (length h)))) with t by lia.
  replace (Z.to_nat (Z.of_nat (length h) + (Z.of_nat t - 5)))
    with (length h + t - 5) by lia.
  rewrite take_drop_commute. do 2 f_equal. lia.
Qed.

Section CellFacts.
Context {F : Type} {arith : Arith F}.
Implicit Types (train test row : list F) (data : list (list F)).

Lemma history_after_all train test :
  history_after train test (length test) = train ++ test.
Proof.
  unfold history_after. by rewrite Nat.sub_diag, take_ge, app_nil_r by lia.
Qed.

Lemma take_history_after train test k :
  k ≤ length test ->
  take (length train + k) (history_after train test k)
  = take (length train + k) (train ++ test).
Proof.
  intros Hk. unfold history_after.
  rewrite !take_app_add by done.
  f_equal. rewrite take_app_le by (rewrite length_take; lia).
  rewrite take_take. f_equal. lia.
Qed.

(** The windowed loop never raises; step [i] stores the mean of the slice
    [history[t-5:t]] of the history as it stands before the step. *)
Lemma walk_forward_moving_average_spec train test :
  ∃ predictions,
    cells.walk_forward_moving_average train test
    = Ok (train ++ test, predictions) ∧
    length predictions = length test ∧
    ∀ i, i < length test ->
      predictions !! i
      = Some (np_mean (py_slice (history_after train test i)
                         (Some (Z.of_nat (length train + i) - 5)%Z)
                         (Some (Z.of_nat (length train + i))))).
Proof.
  unfold cells.walk_forward_moving_average. rewrite history_after_0.
  set (P := fun (k : nat) (st : list F * list F) =>
    st.1 = history_after train test k ∧
    length st.2 = length test ∧
    ∀ i, i < k ->
      st.2 !! i
      = Some (np_mean (py_slice (history_after train test i)
                         (Some (Z.of_nat (length train + i) - 5)%Z)
                         (Some (Z.of_nat (length train + i)))))).
  destruct (for_in_range_invariant P (cells.moving_average_body train test)
              (length test) 0 (history_after train test 0,
                               np_zeros (length test)))
    as ([history predictions] & Hrun & Hh & Hlen & Hp).
  - split_and!; simpl; [done | apply length_replicate | lia].
  - intros k [history predictions] Hk (Hh & Hlen & Hp). simpl in *. subst.
    destruct (lookup_lt_is_Some_2 test k) as [x Hx]; [lia|].
    rewrite setitem_nat by lia. simpl.
    rewrite (getitem_nat _ _ _ Hx). simpl.
    rewrite (history_write _ _ _ _ Hx). simpl.
    eexists. split; [done|]. split_and!; simpl.
    + done.
    + by rewrite length_insert.
    + intros i Hi. destruct (decide (i = k)) as [->|Hne].
      * rewrite list_lookup_insert_eq by lia. do 4 f_equal; lia.
      * rewrite list_lookup_insert_ne by done. apply Hp. lia.
  - simpl in *. subst. rewrite Hrun, history_after_all.
    exists predictions. split_and!; [done..|].
    intros i Hi. apply Hp. lia.
Qed.

(** X2: At every step with at least five earlier values (training values and
    test values already revealed) the windowed loop predicts the mean of
    exactly those five values; it never raises and ends with the history
    [train ++ test]. *)
Theorem moving_average_predicts_window_mean train test :
  ∃ predictions,
    cells.walk_forward_moving_average train test
    = Ok (train ++ test, predictions) ∧
    length predictions = length test ∧
    ∀ i, i < length test -> 5 ≤ length train + i ->
      predictions !! i
      = Some (np_mean (take 5 (drop (length train + i - 5) (train ++ test)))).
Proof.
  destruct (walk_forward_moving_average_spec train test)
    as (predictions & Hrun & Hlen & Hspec).
  exists predictions. split_and!; [done | done |].
  intros i Hi H5. rewrite (Hspec i Hi). do 2 f_equal.
  rewrite py_slice_window by (rewrite ?length_history_after; lia).
  rewrite !take_drop_commute.
  replace (length train + i - 5 + 5) with (length train + i) by lia.
  rewrite take_history_after by lia. done.
Qed.

(** X4: The split of [data]: for every training channel [c < 3] the rows of
    [input] and [target] have one sample less than the row of [data], and
    [target[c][k]] is the sample that follows [input[c][k]]. *)
Theorem target_follows_input data (c : nat) row :
  data !! c = Some row -> c < 3 ->
  ∃ row_in row_tg,
    cells.input data !! c = Some row_in ∧
    cells.target data !! c = Some row_tg ∧
    length row_in = length row - 1 ∧ length row_tg = length row - 1 ∧
    ∀ k, k < length row - 1 ->
      row_in !! k = row !! k ∧ row_tg !! k = row !! (k + 1) ∧
      is_Some (row !! k) ∧ is_Some (row !! (k + 1)).
Proof.
  intros Hrow Hc. unfold cells.input, cells.target.
  rewrite py_slice_first_3, !list_lookup_fmap, lookup_take_lt, Hrow by done.
  simpl. rewrite py_slice_init, py_slice_tail.
  eexists _, _. split_and!; [done | done | | |].
  - rewrite length_take. lia.
  - rewrite length_drop. lia.
  - intros k Hk. split_and!.
    + by rewrite lookup_take_lt.
    + rewrite lookup_drop. f_equal. lia.
    + apply lookup_lt_is_Some. lia.
    + apply lookup_lt_is_Some. lia.
Qed.

(** X5: The naive cell on the notebook's own signals, [train_signal = input[0]]
    and [test_signal = target[0]], both cut from the first row of [data]:
    every prediction after the first is the sample of the row at the same
    index, one step before the value it is compared with, and the first
    prediction is the last but one sample of the row.  Without any row the
    cell raises [IndexError]. *)
Theorem naive_baseline_on_first_row row (rest : list (list F)) :
  cells.naive_baseline (F:=F) [] = Raise IndexError ∧
  ∃ predictions test,
    cells.naive_baseline (row :: rest) = Ok predictions ∧
    cells.test_signal (row :: rest) = Ok test ∧
    length predictions = length row - 1 ∧ length test = length row - 1 ∧
    (2 ≤ length row -> predictions !! 0 = row !! (length row - 2)) ∧
    ∀ i, 0 < i -> i < length row - 1 ->
      predictions !! i = row !! i ∧ test !! i = row !! (i + 1).
Proof.
  split; [done|].
  unfold cells.naive_baseline, cells.train_signal, cells.test_signal,
    cells.input, cells.target.
  rewrite py_slice_first_3. simpl.
  rewrite py_slice_init, py_slice_tail.
  destruct (walk_forward_naive_spec (take (length row - 1) row) (drop 1 row))
    as (predictions & Hrun & Hlen & Hspec).
  unfold naive_predictions. rewrite Hrun. simpl.
  rewrite length_drop in Hlen, Hspec.
  exists predictions, (drop 1 row).
  split_and!; [done | done | lia | rewrite length_drop; lia | |].
  - intros H2. rewrite (Hspec 0) by lia. simpl.
    rewrite last_lookup, length_take.
    rewrite lookup_take_lt by lia.
    replace (Init.Nat.pred ((length row - 1) `min` length row))
      with (length row - 2) by lia.
    destruct (lookup_lt_is_Some_2 row (length row - 2)) as [x ->]; [lia|].
    done.
  - intros [|j] Hi Hlt; [lia|]. rewrite (Hspec (S j)) by lia. simpl.
    rewrite !lookup_drop.
    destruct (lookup_lt_is_Some_2 row (S j)) as [x Hx]; [lia|].
    change (1 + j) with (S j). rewrite Hx.
    split; [done | f_equal; lia].
Qed.
End CellFacts.

Lemma moving_average_predicts_window_mean_witness :
  ∃ predictions,
    cells.walk_forward_moving_average
      [1; 2; 3; 4; 5; 6]%float [7; 8]%float
    = Ok ([1; 2; 3; 4; 5; 6; 7; 8]%float, predictions) ∧
    predictions !! 0 = Some 4%float ∧ predictions !! 1 = Some 5%float.
Proof.
  destruct (moving_average_predicts_window_mean
              [1; 2; 3; 4; 5; 6]%float [7; 8]%float)
    as (predictions & Hrun & _ & Hmean).
  exists predictions. split; [exact Hrun|].
  split; [apply (Hmean 0) | apply (Hmean 1)]; simpl; lia.
Defined.

Lemma target_follows_input_witness :
  ∃ row_in row_tg,
    cells.input [[1; 2; 3]%float; [4; 5; 6]%float] !! 1 = Some row_in ∧
    cells.target [[1; 2; 3]%float; [4; 5; 6]%float] !! 1 = Some row_tg ∧
    row_in = [4; 5]%float ∧ row_tg = [5; 6]%float.
Proof.
  destruct (target_follows_input
              [[1; 2; 3]%float; [4; 5; 6]%float] 1 [4; 5; 6]%float)
    as (row_in & row_tg & Hin & Htg & _); [reflexivity | lia |].
  exists row_in, row_tg. split; [exact Hin|]. split; [exact Htg|].
  split; [by injection Hin as <- | by injection Htg as <-].
Defined.

(** *** The cells on doubles *)

Section CellsBinary64.
Local Open Scope float_scope.

Lemma sub_diag_finite x :
  is_finite x = true -> Prim2SF (x - x) = S754_zero false.
Proof.
  rewrite is_finite_spec, sub_spec.
  destruct (Prim2SF x) as [[]|[]| |s m e]; try done; intros _.
  unfold SF64sub, SFsub. by rewrite Z.sub_diag.
Qed.

Lemma is_nonzero_finite d :
  is_finite d = true -> (d =? 0) = false ->
  ∃ s m e, Prim2SF d = S754_finite s m e.
Proof.
  rewrite is_finite_spec, FloatAxioms.eqb_spec.
  change (Prim2SF 0) with (S754_zero false).
  destruct (Prim2SF d) as [[]|[]| |s m e]; try done. eauto.
Qed.

(** Adding a value to a zero gives a value equal ([==]) to everything the
    value is equal to. *)
Lemma add_zero_l_finite z s p v :
  Prim2SF z = S754_zero s -> is_finite p = true -> (p =? v) = true ->
  (z + p =? v) = true ∧ is_finite (z + p) = true.
Proof.
  rewrite !is_finite_spec, !FloatAxioms.eqb_spec, add_spec.
  intros -> Hp Hpv.
  destruct (Prim2SF p) as [sp|sp| |sp m e] eqn:E; try done.
  split; [|by destruct s, sp].
  destruct (Prim2SF v) as [sv|sv| |sv mv ev]; by destruct s, sp.
Qed.

(** One step of the smoothing recurrence at [alpha = 0]. *)
Lemma blend_alpha_0 x p v :
  is_finite x = true -> is_finite p = true -> (p =? v) = true ->
  (0 * x + (1 - 0) * p =? v) = true ∧
  is_finite (0 * x + (1 - 0) * p) = true.
Proof.
  intros Hx Hp Hpv. change (1 - 0) with 1. rewrite mul_1_l.
  destruct (mul_0_finite x Hx) as [s Hs].
  by apply (add_zero_l_finite _ s).
Qed.

(** X6: With [alpha = 0] and finite data the smoothed prediction never moves:
    every prediction equals ([==]) the last value of the training history,
    or [0.0] when the training history is empty, whatever the test sequence
    reveals. *)
Theorem smoothing_alpha_0_ignores_observations (train test : list float) :
  Forall (fun x => is_finite x = true) train ->
  Forall (fun x => is_finite x = true) test ->
  ∃ smoothed,
    exponential_smoothing 0 train test = Ok smoothed ∧
    length smoothed = length test ∧
    Forall (fun a => (a =? default 0 (last train)) = true) smoothed.
Proof.
  intros Htrain Htest.
  destruct (exponential_smoothing_spec 0 train test)
    as (smoothed & Hs & Hslen & Hs0 & Hsrec).
  exists smoothed. split_and!; [done | done |].
  set (v := default 0 (last train)).
  pose proof (is_finite_previous_observation train test 0 Htrain Htest)
    as Hvfin.
  change (previous_observation train test 0) with v in Hvfin.
  assert (∀ i, i < length test ->
            ∃ a, smoothed !! i = Some a ∧ is_finite a = true ∧
                 (a =? v) = true) as Hall.
  { induction i as [|j IH]; intros Hi.
    - exists v. split_and!; [|done|by apply finite_eqb_refl].
      rewrite Hs0 by done. done.
    - destruct IH as (p & Hp & Hpfin & Hpv); [lia|].
      eexists. split; [by apply Hsrec|].
      pose proof (is_finite_previous_observation train test (S j) Htrain Htest)
        as Hx.
      destruct (blend_alpha_0 _ p v Hx Hpfin Hpv) as [Heq Hfin]. done. }
  apply Forall_lookup_2. intros i a Ha.
  pose proof (lookup_lt_Some _ _ _ Ha) as Hi.
  destruct (Hall i) as (a' & Ha' & _ & Heq); [lia|]. congruence.
Qed.

(** X6 on a history that ends with 3, and on the empty history. *)
Lemma smoothing_alpha_0_ignores_observations_witness :
  (∃ smoothed,
     exponential_smoothing 0 [1; 2; 3] [4; 5; 7] = Ok smoothed ∧
     length smoothed = 3%nat ∧
     Forall (fun a => (a =? 3) = true) smoothed) ∧
  (∃ smoothed,
     exponential_smoothing 0 [] [4; 5; 7] = Ok smoothed ∧
     length smoothed = 3%nat ∧
     Forall (fun a => (a =? 0) = true) smoothed).
Proof.
  split.
  - apply (smoothing_alpha_0_ignores_observations [1; 2; 3] [4; 5; 7]);
      repeat constructor.
  - apply (smoothing_alpha_0_ignores_observations [] [4; 5; 7]);
      repeat constructor.
Defined.

(** X3: what the windowed loop predicts while fewer than five values precede
    a step ([t = len(train_signal) + i < 5]), where the start [t-5] of the
    window [history[t-5:t]] is negative and counts from the end of the
    history array.  When the array has at least five cells the start lands
    at or after [t]: the window is empty and the prediction is NaN, without
    an exception.  When it has fewer, the window runs from position
    [len(history) + t - 5] (from 0 when that is negative) to [t], and the
    prediction is the mean of those values. *)
Theorem moving_average_short_history (train test : list float) :
  ∃ predictions,
    cells.walk_forward_moving_average train test
    = Ok (train ++ test, predictions) ∧
    (5 ≤ length train + length test ->
     ∀ i, i < length test -> length train + i < 5 ->
       predictions !! i = Some nan) ∧
    (length train + length test < 5 ->
     ∀ i, i < length test ->
       predictions !! i
       = Some (np_mean (drop (length train + length test + (length train + i) - 5)
                             (take (length train + i) (train ++ test))))).
Proof.
  destruct (walk_forward_moving_average_spec train test)
    as (predictions & Hrun & Hlen & Hspec).
  exists predictions. split; [done|]. split.
  - intros HL i Hi H5. rewrite (Hspec i Hi).
    rewrite py_slice_wrapped by (rewrite ?length_history_after; lia).
    reflexivity.
  - intros HL i Hi. rewrite (Hspec i Hi).
    rewrite py_slice_short by (rewrite ?length_history_after; lia).
    rewrite length_history_after, take_history_after by lia. done.
Qed.

Lemma moving_average_short_history_witness :
  (∃ predictions,
     cells.walk_forward_moving_average [1; 2] [3; 4; 5; 6]
     = Ok ([1; 2] ++ [3; 4; 5; 6], predictions) ∧
     predictions !! 0%nat = Some nan ∧ predictions !! 2%nat = Some nan) ∧
  (∃ predictions,
     cells.walk_forward_moving_average [1] [2; 3]
     = Ok ([1] ++ [2; 3], predictions) ∧
     predictions !! 0%nat = Some 1 ∧ predictions !! 1%nat = Some 1.5).
Proof.
  split.
  - destruct (moving_average_short_history [1; 2] [3; 4; 5; 6])
      as (predictions & Hrun & Hnan & _).
    exists predictions. split; [exact Hrun|].
    split; apply Hnan; simpl; lia.
  - destruct (moving_average_short_history [1] [2; 3])
      as (predictions & Hrun & _ & Hmean).
    exists predictions. split; [exact Hrun|].
    split; [apply (Hmean ltac:(simpl; lia) 0%nat) | apply (Hmean ltac:(simpl; lia) 1%nat)]; simpl; lia.
Defined.

Lemma normalise_lookup pmin pmax (signal : list float) k x :
  signal !! k = Some x ->
  cells.normalise pmin pmax signal !! k
  = Some (2 * (x - pmin) / (pmax - pmin) - 1).
Proof.
  intros Hx. unfold cells.normalise. rewrite list_lookup_fmap, Hx. done.
Qed.

(** X7: On a finite physical range that is not empty, the normalisation sends
    a sample at the physical minimum to exactly [-1.0]. *)
Theorem normalise_minimum pmin pmax (signal : list float) k :
  is_finite pmin = true ->
  is_finite (pmax - pmin) = true -> (pmax - pmin =? 0) = false ->
  signal !! k = Some pmin ->
  cells.normalise pmin pmax signal !! k = Some (-1).
Proof.
  intros Hmin Hd Hd0 Hk. rewrite (normalise_lookup _ _ _ _ _ Hk). f_equal.
  apply Prim2SF_inj. rewrite sub_spec, div_spec, mul_spec.
  rewrite (sub_diag_finite _ Hmin).
  destruct (is_nonzero_finite _ Hd Hd0) as (s & m & e & ->).
  by destruct s.
Qed.

Lemma normalise_minimum_witness :
  cells.normalise (-3) 5 [0.5; -3; 5] !! 1%nat = Some (-1).
Proof.
  apply normalise_minimum; reflexivity.
Defined.

(** X8: When the physical maximum equals the (finite) physical minimum,
    nothing is raised and no normalised sample is finite: a sample at the
    minimum becomes NaN ([0/0 - 1]), and every other one NaN or an
    infinity. *)
Theorem normalise_empty_range pmin (signal : list float) :
  is_finite pmin = true ->
  length (cells.normalise pmin pmin signal) = length signal ∧
  (∀ k, signal !! k = Some pmin ->
        cells.normalise pmin pmin signal !! k = Some nan) ∧
  Forall (fun y => is_finite y = false) (cells.normalise pmin pmin signal).
Proof.
  intros Hmin. split_and!.
  - unfold cells.normalise. apply length_fmap.
  - intros k Hk. rewrite (normalise_lookup _ _ _ _ _ Hk). f_equal.
    apply Prim2SF_inj. rewrite sub_spec, div_spec, mul_spec.
    by rewrite (sub_diag_finite _ Hmin).
  - unfold cells.normalise.
    apply Forall_fmap, Forall_forall. intros x _. simpl.
    rewrite is_finite_spec, sub_spec, div_spec.
    rewrite (sub_diag_finite _ Hmin).
    change (Prim2SF 1) with (S754_finite false 4503599627370496 (-52)).
    by destruct (Prim2SF (_ * _)) as [[]|[]| |[] m e].
Qed.

Lemma normalise_empty_range_witness :
  length (cells.normalise 5 5 [5; 6; 4]) = 3%nat ∧
  cells.normalise 5 5 [5; 6; 4] !! 0%nat = Some nan ∧
  Forall (fun y => is_finite y = false) (cells.normalise 5 5 [5; 6; 4]).
Proof.
  destruct (normalise_empty_range 5 [5; 6; 4]) as (Hlen & Hnan & Hall);
    [reflexivity|].
  split; [exact Hlen|]. split; [|exact Hall]. apply Hnan. reflexivity.
Defined.
End CellsBinary64.

(** ** Rows and columns of [RNN.forward] *)

Lemma for_in_app {A St} (xs ys : list A) (body : A -> St -> result St) s :
  for_in (xs ++ ys) body s = (s' ← for_in xs body s; for_in ys body s').
Proof.
  revert s. induction xs as [|x xs IH]; intros s; simpl; [done|].
  destruct (body x s) as [s1|e]; simpl; [apply IH | done].
Qed.

Lemma take_1_drop {A} (l : list A) b : take 1 (drop b l) = option_list (l !! b).
Proof.
  revert b. induction l as [|x l IH]; intros [|b]; simpl; auto.
Qed.

Section RowsAndColumns.
Context {F : Type} {arith : Arith F} {activation : Activation F}.
Implicit Types (self : RNN.t F) (input hidden trace t : Tensor F)
               (ts outputs : list (Tensor F)).

(** *** One signal of a batch *)

Lemma narrow0_size0 t b : size0 (narrow0 t b) = min 1 (size0 t - b).
Proof.
  unfold size0, narrow0. cbn [rows]. by rewrite length_take, length_drop.
Qed.

Lemma narrow0_zeros (n m b : nat) :
  narrow0 (torch.zeros (F:=F) n m) b = torch.zeros (min 1 (n - b)) m.
Proof.
  unfold narrow0, torch.zeros. simpl. f_equal.
  by rewrite drop_replicate, take_replicate.
Qed.

Lemma narrow0_narrow t b start len :
  torch.narrow (narrow0 t b) start len = narrow0 (torch.narrow t start len) b.
Proof.
  unfold narrow0, torch.narrow. simpl. f_equal.
  by rewrite fmap_take, fmap_drop.
Qed.

Lemma split_narrow0 t b :
  torch.split (narrow0 t b) = (fun c => narrow0 c b) <$> torch.split t.
Proof.
  unfold torch.split. change (size1 (narrow0 t b)) with (size1 t).
  destruct (size1 t) as [|n]; simpl.
  - by rewrite narrow0_narrow.
  - rewrite narrow0_narrow. f_equal.
    rewrite <- list_fmap_compose. apply list_fmap_ext.
    intros i j _. simpl. apply narrow0_narrow.
Qed.

Lemma cell_forward_narrow0 (c : RNNCell.t F) input hidden hidden' b :
  RNNCell.forward c input hidden = Ok hidden' ->
  RNNCell.forward c (narrow0 input b) (narrow0 hidden b)
  = Ok (narrow0 hidden' b).
Proof.
  intros Hrun.
  destruct (cell_forward_Ok _ _ _ _ Hrun) as (H1 & H2 & _ & _ & H0).
  unfold RNNCell.forward in *.
  rewrite !narrow0_size0.
  change (size1 (narrow0 input b)) with (size1 input).
  change (size1 (narrow0 hidden b)) with (size1 hidden).
  repeat case_decide; try done; try lia.
  injection Hrun as <-. unfold narrow0. simpl. do 2 f_equal.
  by rewrite zip_with_drop, zip_with_take.
Qed.

Lemma linear_forward_narrow0 (l : Linear.t F) hidden output b :
  Linear.forward l hidden = Ok output ->
  Linear.forward l (narrow0 hidden b) = Ok (narrow0 output b).
Proof.
  unfold Linear.forward.
  change (size1 (narrow0 hidden b)) with (size1 hidden).
  case_decide; [done|]. intros [= <-]. unfold narrow0. simpl. do 2 f_equal.
  by rewrite fmap_take, fmap_drop.
Qed.

Lemma for_in_forward_body_narrow0 self chunks hidden outputs hidden' outputs' b :
  for_in chunks (RNN.forward_body self) (hidden, outputs)
  = Ok (hidden', outputs') ->
  for_in ((fun c => narrow0 c b) <$> chunks) (RNN.forward_body self)
         (narrow0 hidden b, (fun y => narrow0 y b) <$> outputs)
  = Ok (narrow0 hidden' b, (fun y => narrow0 y b) <$> outputs').
Proof.
  revert hidden outputs. induction chunks as [|c cs IH]; intros hidden outputs.
  - by intros [= <- <-].
  - cbn [for_in fmap list_fmap].
    destruct (RNN.forward_body self c (hidden, outputs)) as [[h1 o1]|e] eqn:E;
      simpl; [|discriminate].
    apply forward_body_Ok in E as (y & Hcell & Hlin & ->).
    intros Hrest%IH.
    rewrite (cell_forward_narrow0 _ _ _ _ b Hcell). simpl.
    rewrite (linear_forward_narrow0 _ _ _ b Hlin). simpl.
    by rewrite fmap_app in Hrest.
Qed.

Lemma cat_rows_narrow0 ts (acc : list (list F)) b :
  foldl (fun acc t => zip_with app acc (rows t)) (take 1 (drop b acc))
        ((fun u => narrow0 u b) <$> ts)
  = take 1 (drop b (foldl (fun acc t => zip_with app acc (rows t)) acc ts)).
Proof.
  revert acc. induction ts as [|t ts IH]; intros acc; simpl; [done|].
  rewrite <- IH. f_equal. by rewrite zip_with_drop, zip_with_take.
Qed.

Lemma cat_narrow0 ts t b :
  torch.cat ts = Ok t ->
  torch.cat ((fun u => narrow0 u b) <$> ts) = Ok (narrow0 t b).
Proof.
  destruct ts as [|t0 rest]; [done|]. simpl.
  case_decide as Hsz; [|done]. intros [= <-].
  rewrite decide_True.
  - unfold narrow0 at 3. simpl. f_equal. f_equal.
    + rewrite foldl_fmap. done.
    + apply cat_rows_narrow0.
  - apply Forall_fmap, Forall_forall. intros u Hu. simpl.
    rewrite !narrow0_size0.
    by rewrite (proj1 (Forall_forall _ _) Hsz u Hu).
Qed.

(** X9: Running one signal of a batch alone gives that signal's row of the
    batch result: the rows of a batch do not influence each other. *)
Theorem forward_rows_are_independent self input future trace hidden b :
  RNN.forward self input future = Ok (trace, hidden) ->
  b < size0 input ->
  RNN.forward self (narrow0 input b) future
  = Ok (narrow0 trace b, narrow0 hidden b) ∧
  size0 (narrow0 input b) = 1 ∧
  rows (narrow0 trace b) = option_list (rows trace !! b).
Proof.
  intros Hrun Hb. split_and!.
  - unfold RNN.forward in *.
    destruct (for_in _ _ _) as [[h outputs]|e] eqn:Hloop; [|done].
    simpl in Hrun.
    destruct (torch.cat outputs) as [t|e] eqn:Hcat; [|done].
    injection Hrun as -> ->.
    rewrite split_narrow0, narrow0_size0.
    rewrite <- narrow0_zeros.
    apply (for_in_forward_body_narrow0 _ _ _ _ _ _ b) in Hloop.
    simpl in Hloop. rewrite Hloop. simpl.
    by rewrite (cat_narrow0 _ _ b Hcat).
  - rewrite narrow0_size0. lia.
  - apply take_1_drop.
Qed.

(** *** The first columns of the input *)

Lemma take_1_drop_take {A} (r : list A) j k :
  j < k -> take 1 (drop j (take k (drop 0 r))) = take 1 (drop j r).
Proof.
  intros Hjk. rewrite drop_0, !take_drop_commute, take_take.
  do 2 f_equal. lia.
Qed.

Lemma split_narrow_prefix input k :
  0 < k -> k ≤ size1 input ->
  torch.split (torch.narrow input 0 k) = take k (torch.split input).
Proof.
  intros Hk HT. unfold torch.split.
  change (size1 (torch.narrow input 0 k)) with k.
  destruct k as [|k']; [lia|]. destruct (size1 input) as [|T] eqn:E; [lia|].
  rewrite <- fmap_take, take_seq.
  replace (S k' `min` S T) with (S k') by lia.
  apply Forall_fmap_ext_1, Forall_forall. intros j Hj%elem_of_seq.
  unfold torch.narrow. simpl size1. f_equal. cbn [rows].
  rewrite <- list_fmap_compose.
  apply list_fmap_ext. intros i r _. simpl. apply take_1_drop_take. lia.
Qed.

(** Cutting a concatenation after the columns of its first tensors gives
    the concatenation of these tensors. *)
Lemma cat_app_narrow ts more t :
  ts ≠ [] -> torch.cat (ts ++ more) = Ok t ->
  Forall wf_tensor (ts ++ more) ->
  ∃ t', torch.cat ts = Ok t' ∧ torch.narrow t 0 (size1 t') = t'.
Proof.
  destruct ts as [|t0 rest]; [done|]. intros _. simpl.
  case_decide as Hsz; [|done]. intros [= <-] Hwf.
  apply Forall_app in Hsz as [Hsz1 Hsz2].
  apply Forall_cons in Hwf as [Hwf0 Hwf].
  apply Forall_app in Hwf as [Hwf1 Hwf2].
  rewrite decide_True by done. eexists. split; [done|].
  unfold torch.narrow. simpl. f_equal. rewrite foldl_app.
  set (acc := foldl (fun acc t => zip_with app acc (rows t)) (rows t0) rest).
  set (n := foldl (fun n t => n + size1 t) (size1 t0) rest).
  destruct (cat_rows_fold rest (rows t0) (size1 t0)) as (Hlen & Hrows & _).
  { done. }
  { apply Forall_forall. intros u Hu. split.
    - by eapply (proj1 (Forall_forall _ _) Hwf1).
    - by eapply (proj1 (Forall_forall _ _) Hsz1). }
  fold acc n in Hlen, Hrows.
  destruct (cat_rows_fold more acc n) as (Hlen' & _ & Hpre).
  { done. }
  { apply Forall_forall. intros u Hu. split.
    - by eapply (proj1 (Forall_forall _ _) Hwf2).
    - rewrite Hlen. by eapply (proj1 (Forall_forall _ _) Hsz2). }
  apply list_eq. intros i. rewrite list_lookup_fmap.
  destruct (acc !! i) as [a|] eqn:Ha.
  - destruct (Hpre i a Ha) as (r & -> & [extra ->]). simpl. f_equal.
    rewrite drop_0. apply take_app_length'.
    symmetry. by eapply (Forall_lookup_1 _ _ _ _ Hrows).
  - apply lookup_ge_None in Ha.
    rewrite (proj2 (lookup_ge_None _ _)); [done|]. lia.
Qed.

(** X10: The outputs for the first [k] samples do not depend on the samples
    after them: on the first [k] columns of the input, a model whose
    projection has the shape [__init__] gives it returns the first [k]
    blocks of the trace. *)
Theorem forward_is_causal self input future trace hidden k :
  RNN.forward self input future = Ok (trace, hidden) ->
  Linear.wf (RNN.linear self) ->
  0 < k -> k ≤ size1 input ->
  ∃ hidden_k,
    RNN.forward self (torch.narrow input 0 k) future
    = Ok (torch.narrow trace 0 (k * Linear.out_features (RNN.linear self)),
          hidden_k).
Proof.
  intros Hrun Hwf Hk HT. unfold RNN.forward in *.
  rewrite split_narrow_prefix, narrow_size0 by done.
  rewrite <- (take_drop k (torch.split input)), for_in_app in Hrun.
  destruct (for_in (take k _) _ _) as [[hk outs_k]|e] eqn:Hloop_k; [|done].
  simpl in Hrun.
  destruct (for_in (drop k _) _ _) as [[h outs]|e] eqn:Hloop; [|done].
  simpl in Hrun.
  destruct (torch.cat outs) as [t|e] eqn:Hcat; [|done].
  injection Hrun as -> ->. simpl.
  apply for_in_forward_body_Ok in Hloop_k as (new_k & -> & Hlen_k & Hnew_k).
  apply for_in_forward_body_Ok in Hloop as (more & -> & _ & Hmore).
  simpl in Hcat |- *.
  rewrite length_take, length_split in Hlen_k.
  destruct (cat_app_narrow new_k more trace) as (t' & Hcat' & Ht'); [ |done| |].
  - intros ->. cbn [length] in Hlen_k. lia.
  - apply Forall_app. split.
    + eapply Forall_impl; [exact Hnew_k|]. intros u [_ Hu]. by apply Hu.
    + eapply Forall_impl; [exact Hmore|]. intros u [_ Hu]. by apply Hu.
  - rewrite Hcat'. simpl. exists hk. do 2 f_equal. rewrite <- Ht'. f_equal.
    rewrite (cat_size1 (Linear.out_features (RNN.linear self)) _ _ Hcat').
    + rewrite Hlen_k. f_equal. lia.
    + eapply Forall_impl; [exact Hnew_k|]. by intros u [Hu _].
Qed.
End RowsAndColumns.

Lemma forward_rows_are_independent_witness :
  RNN.forward (activation := identity_activation) demo_rnn
    {| size1 := 2; rows := [[5; 6]%float] |} 0
  = Ok ({| size1 := 2; rows := [[6; 8.25]%float] |},
        {| size1 := 1; rows := [[3.625]%float] |}).
Proof.
  apply (forward_rows_are_independent (activation := identity_activation)
           demo_rnn {| size1 := 2; rows := [[1; 2]; [5; 6]]%float |} 0
           {| size1 := 2; rows := [[2; 3.25]; [6; 8.25]]%float |}
           {| size1 := 1; rows := [[1.125]; [3.625]]%float |} 1).
  - reflexivity.
  - vm_compute. lia.
Defined.

Lemma forward_is_causal_witness :
  ∃ hidden_1,
    RNN.forward (activation := identity_activation) demo_rnn
      (torch.narrow demo_input 0 1) 0
    = Ok (torch.narrow {| size1 := 2; rows := [[2; 3.25]]%float |} 0 (1 * 1),
          hidden_1).
Proof.
  apply (forward_is_causal (activation := identity_activation)
           demo_rnn demo_input 0
           {| size1 := 2; rows := [[2; 3.25]]%float |}
           {| size1 := 1; rows := [[1.125]]%float |} 1).
  - reflexivity.
  - split; reflexivity.
  - lia.
  - vm_compute. lia.
Defined.

(** ** The error of a prediction *)

Section ErrorBinary64.
Local Open Scope float_scope.

Lemma binary_round_opp m e :
  binary_round prec emax true m e = SFopp (binary_round prec emax false m e).
Proof.
  unfold binary_round. destruct (shl_align _ _ _) as [mz ez].
  unfold binary_round_aux.
  destruct (shr_fexp _ _ _ _ _) as [mrs' e'].
  destruct (shr_fexp _ _ _ _ _) as [mrs'' e''].
  destruct (shr_m mrs''); try done.
  by destruct (_ <=? _)%Z.
Qed.

Lemma binary_normalize_opp z e :
  binary_normalize prec emax (- z) e false
  = binary_normalize prec emax z e false ∨
  binary_normalize prec emax (- z) e false
  = SFopp (binary_normalize prec emax z e false).
Proof.
  destruct z as [|m|m]; simpl.
  - by left.
  - right. apply binary_round_opp.
  - right. rewrite binary_round_opp.
    by destruct (binary_round prec emax false m e) as [[]|[]| |[] m' e'].
Qed.

(** The square of a value and of its opposite are the same. *)
Lemma SFmul_opp s : SF64mul (SFopp s) (SFopp s) = SF64mul s s.
Proof. by destruct s as [[]|[]| |[] m e]. Qed.

Lemma SFsub_swap x y :
  SF64sub y x = SF64sub x y ∨ SF64sub y x = SFopp (SF64sub x y).
Proof.
  destruct x as [sx|sx| |sx mx ex], y as [sy|sy| |sy my ey];
    try (by left); try (by right);
    try (by destruct sx, sy; (by left) || (by right)).
  unfold SF64sub, SFsub. rewrite (Z.min_comm ey ex).
  set (a := cond_Zopp sx _). set (b := cond_Zopp sy _).
  replace (b - a)%Z with (- (a - b))%Z by lia.
  apply binary_normalize_opp.
Qed.

Lemma square_sub_swap a b : (a - b) * (a - b) = (b - a) * (b - a).
Proof.
  apply Prim2SF_inj. rewrite !mul_spec, !sub_spec.
  destruct (SFsub_swap (Prim2SF a) (Prim2SF b)) as [-> | ->]; [done|].
  by rewrite SFmul_opp.
Qed.

(** X11: the error cell calls [mean_squared_error(predictions, test_signal)],
    the reverse of the order [(y_true, y_pred)] of the library: the result,
    value or [ValueError], is the same in either order. *)
Theorem rmse_is_symmetric (predictions test_signal : list float) :
  rmse predictions test_signal = rmse test_signal predictions.
Proof.
  unfold rmse, mean_squared_error.
  assert (zip_with (fun a b => fmul (fsub a b) (fsub a b))
                   predictions test_signal
          = zip_with (fun a b => fmul (fsub a b) (fsub a b))
                     test_signal predictions) as ->.
  { revert test_signal.
    induction predictions as [|p ps IH]; intros [|t ts]; simpl; try done.
    f_equal; [apply square_sub_swap | apply IH]. }
  rewrite (andb_comm (forallb isfinite predictions)).
  destruct (decide (length predictions = length test_signal
                    ∧ length predictions ≠ 0%nat)) as [[Hlen Hne]|Hbad].
  - rewrite decide_True by (split; congruence). done.
  - rewrite decide_False; [done|]. intros [Hlen Hne]. apply Hbad.
    split; congruence.
Qed.
End ErrorBinary64.

(** ** The returned state and the end of the trace *)

Section LastBlock.
Context {F : Type} {arith : Arith F} {activation : Activation F}.
Implicit Types (self : RNN.t F) (input hidden trace t y : Tensor F)
               (ts outputs : list (Tensor F)).

(** After a loop of at least one iteration the last output is the
    projection of the carried state. *)
Lemma for_in_forward_body_last self chunks hidden outputs hidden' outputs' :
  chunks ≠ [] ->
  for_in chunks (RNN.forward_body self) (hidden, outputs)
  = Ok (hidden', outputs') ->
  ∃ y, Linear.forward (RNN.linear self) hidden' = Ok y ∧
       last outputs' = Some y.
Proof.
  revert hidden outputs. induction chunks as [|c cs IH]; [done|].
  intros hidden outputs _. cbn [for_in].
  destruct (RNN.forward_body self c (hidden, outputs)) as [[h1 o1]|e] eqn:E;
    simpl; [|discriminate].
  apply forward_body_Ok in E as (y & Hcell & Hlin & ->).
  destruct cs as [|c' cs'].
  - intros [= <- <-]. exists y. split; [done|]. apply last_snoc.
  - by apply IH.
Qed.

Lemma cat_singleton y : torch.cat [y] = Ok y.
Proof.
  unfold torch.cat. case_decide as Hsz; [by destruct y|].
  destruct Hsz. constructor.
Qed.

(** The last columns of a concatenation are its last tensor. *)
Lemma cat_snoc_narrow ts y t :
  torch.cat (ts ++ [y]) = Ok t -> Forall wf_tensor (ts ++ [y]) ->
  torch.narrow t (size1 t - size1 y) (size1 y) = y.
Proof.
  intros Hcat Hwf. apply Forall_app in Hwf as [Hwf Hy].
  apply Forall_inv in Hy. unfold wf_tensor in Hy.
  destruct ts as [|t0 rest].
  - change ([] ++ [y]) with [y] in Hcat.
    rewrite cat_singleton in Hcat. injection Hcat as <-.
    unfold torch.narrow. rewrite Nat.sub_diag. destruct y as [n rs].
    simpl. f_equal. rewrite <- (list_fmap_id rs) at 2.
    apply Forall_fmap_ext_1. eapply Forall_impl; [exact Hy|].
    simpl. intros r Hr. rewrite drop_0. apply take_ge. lia.
  - simpl in Hcat. case_decide as Hsz; [|done]. injection Hcat as <-.
    apply Forall_app in Hsz as [Hsz1 Hsz2].
    apply Forall_inv in Hsz2.
    apply Forall_cons in Hwf as [Hwf0 Hwf].
    unfold torch.narrow. simpl. rewrite !foldl_app. simpl.
    set (acc := foldl (fun acc t => zip_with app acc (rows t)) (rows t0) rest).
    set (n := foldl (fun n t => n + size1 t) (size1 t0) rest).
    destruct (cat_rows_fold rest (rows t0) (size1 t0)) as (Hlen & Hrows & _).
    { done. }
    { apply Forall_forall. intros u Hu. split.
      - by eapply (proj1 (Forall_forall _ _) Hwf).
      - by eapply (proj1 (Forall_forall _ _) Hsz1). }
    fold acc n in Hlen, Hrows.
    replace (n + size1 y - size1 y) with n by lia.
    destruct y as [m rs]. simpl in *. f_equal.
    apply list_eq. intros i. rewrite list_lookup_fmap, lookup_zip_with.
    destruct (acc !! i) as [a|] eqn:Ha; simpl.
    + destruct (rs !! i) as [b|] eqn:Hb; simpl; [|done].
      f_equal. rewrite drop_app_length'.
      * apply take_ge. rewrite (Forall_lookup_1 _ _ _ _ Hy Hb). done.
      * symmetry. by eapply (Forall_lookup_1 _ _ _ _ Hrows).
    + apply lookup_ge_None in Ha. symmetry. apply lookup_ge_None.
      unfold size0 in Hsz2. simpl in Hsz2. lia.
Qed.

(** X12: the last block of the returned trace is the projection of the
    returned state: the last prediction can be recomputed from [hidden]
    alone. *)
Theorem forward_last_block_is_projection self input future trace hidden :
  RNN.forward self input future = Ok (trace, hidden) ->
  Linear.wf (RNN.linear self) ->
  ∃ y,
    Linear.forward (RNN.linear self) hidden = Ok y ∧
    size1 y = Linear.out_features (RNN.linear self) ∧
    torch.narrow trace (size1 trace - size1 y) (size1 y) = y.
Proof.
  intros Hrun Hwf. unfold RNN.forward in Hrun.
  destruct (for_in _ _ _) as [[h outputs]|e] eqn:Hloop; [|done].
  simpl in Hrun.
  destruct (torch.cat outputs) as [t|e] eqn:Hcat; [|done].
  injection Hrun as -> ->.
  assert (torch.split input ≠ []) as Hne.
  { destruct (split_cons input) as [rest ->]. done. }
  destruct (for_in_forward_body_last _ _ _ _ _ _ Hne Hloop)
    as (y & Hy & Hlast).
  exists y. split; [done|].
  destruct (linear_forward_Ok _ _ _ Hy) as (_ & Hy1 & _ & _).
  split; [done|].
  apply for_in_forward_body_Ok in Hloop as (new & Hnew & _ & Hall).
  simpl in Hnew. subst outputs.
  apply last_Some in Hlast as [init ->].
  apply (cat_snoc_narrow init); [done|].
  eapply Forall_impl; [exact Hall|]. intros u [_ Hu]. by apply Hu.
Qed.
End LastBlock.

Lemma forward_last_block_is_projection_witness :
  ∃ y,
    Linear.forward (RNN.linear demo_rnn)
                   {| size1 := 1; rows := [[1.125]]%float |} = Ok y ∧
    size1 y = 1 ∧
    torch.narrow {| size1 := 2; rows := [[2; 3.25]]%float |}
                 (2 - size1 y) (size1 y) = y.
Proof.
  apply (forward_last_block_is_projection (activation := identity_activation)
           demo_rnn demo_input 0
           {| size1 := 2; rows := [[2; 3.25]]%float |}
           {| size1 := 1; rows := [[1.125]]%float |}).
  - reflexivity.
  - split; reflexivity.
Defined.

(** ** Walk-forward: no prediction uses the value it predicts *)

Section WalkForward.
Context {F : Type} {arith : Arith F}.
Implicit Types (train test : list F).

Lemma take_lookup_eq {A} (l1 l2 : list A) i j :
  take i l1 = take i l2 -> j < i -> l1 !! j = l2 !! j.
Proof.
  intros Heq Hj. rewrite <- (lookup_take_lt l1 i j), <- (lookup_take_lt l2 i j)
    by done. by rewrite Heq.
Qed.

(** X13: the prediction of [exponential_smoothing] for step [i] depends on
    the training history and on the test values before [i] only: two test
    sequences that agree on their first [i] values get the same prediction
    at [i], whatever they hold from [i] on. *)
Theorem exponential_smoothing_uses_only_the_past
    (alpha : F) train test1 test2 p1 p2 (i : nat) :
  exponential_smoothing alpha train test1 = Ok p1 ->
  exponential_smoothing alpha train test2 = Ok p2 ->
  i < length test1 -> i < length test2 ->
  take i test1 = take i test2 ->
  p1 !! i = p2 !! i.
Proof.
  intros Hp1 Hp2 Hi1 Hi2 Heq.
  destruct (exponential_smoothing_spec alpha train test1)
    as (q1 & Hq1 & Hl1 & H01 & Hrec1).
  destruct (exponential_smoothing_spec alpha train test2)
    as (q2 & Hq2 & Hl2 & H02 & Hrec2).
  assert (q1 = p1) as -> by congruence.
  assert (q2 = p2) as -> by congruence.
  assert (∀ j, j ≤ i -> p1 !! j = p2 !! j) as Hall; [|by apply Hall].
  induction j as [|j IH]; intros Hj.
  - rewrite H01, H02 by lia. done.
  - destruct (lookup_lt_is_Some_2 p1 j) as [a Ha]; [lia|].
    rewrite (Hrec1 j a) by (done || lia).
    rewrite (Hrec2 j a) by (lia || (rewrite <- IH by lia; done)).
    simpl. by rewrite (take_lookup_eq test1 test2 i j Heq) by lia.
Qed.

(** X14: the same for the windowed loop, on test sequences of one length
    (the length fixes the size of the history array, which the window's
    negative start is counted from). *)
Theorem moving_average_uses_only_the_past
    train test1 test2 h1 h2 p1 p2 (i : nat) :
  cells.walk_forward_moving_average train test1 = Ok (h1, p1) ->
  cells.walk_forward_moving_average train test2 = Ok (h2, p2) ->
  length test1 = length test2 -> i < length test1 ->
  take i test1 = take i test2 ->
  p1 !! i = p2 !! i.
Proof.
  intros Hp1 Hp2 Hlen Hi Heq.
  destruct (walk_forward_moving_average_spec train test1)
    as (q1 & Hq1 & _ & Hs1).
  destruct (walk_forward_moving_average_spec train test2)
    as (q2 & Hq2 & _ & Hs2).
  assert (q1 = p1) as -> by congruence.
  assert (q2 = p2) as -> by congruence.
  rewrite Hs1, Hs2 by lia.
  unfold history_after. by rewrite Heq, Hlen.
Qed.
End WalkForward.

Lemma exponential_smoothing_uses_only_the_past_witness :
  [3; 3.5; 4.25]%float !! 1 = [3; 3.5; 5.75; 3.375]%float !! 1.
Proof.
  apply (exponential_smoothing_uses_only_the_past
           0.5%float [1; 2; 3]%float [4; 5; 7]%float [4; 8; 1; 0]%float).
  - reflexivity.
  - reflexivity.
  - simpl. lia.
  - simpl. lia.
  - reflexivity.
Defined.

Lemma moving_average_uses_only_the_past_witness :
  [4; 5]%float !! 1 = [4; 5]%float !! 1.
Proof.
  apply (moving_average_uses_only_the_past
           [1; 2; 3; 4; 5; 6]%float [7; 8]%float [7; 3]%float
           [1; 2; 3; 4; 5; 6; 7; 8]%float [1; 2; 3; 4; 5; 6; 7; 3]%float).
  - reflexivity.
  - reflexivity.
  - reflexivity.
  - simpl. lia.
  - reflexivity.
Defined.
